(** * Whisper Call Transcriber: a model of [transcribe.py]

    The program is a Tk front end that stages audio files, hands a snapshot of
    them to a worker thread, and shows the worker's progress events.  This
    file embeds the logic of [transcribe.py] (the configuration helpers, the
    staging of files, the start of a run, the worker, and the handling of the
    worker's events) and proves the properties its specification states.

    Modelling conventions.
    - A Python [str] is a [string]; each character stands for one code point
      in the range U+0000..U+00FF.
    - A Python [float] is a binary64 value, a [spec_float] with the
      operations of [SpecFloat] at precision 53 and maximal exponent 1024.
    - A raised exception is [Raise e]; of [e] the model keeps [str(e)] and
      whether it is an instance of [Exception], which is what the program's
      [except Exception] clauses tell apart.  Exceptions come from the
      statements that are executed; one that arrives between two statements
      (a signal) is not modelled.
    - The outside world (clock, speech engine, disk faults) is an oracle
      [Env]; every interaction with it consumes one tick of the world.
    - Paths are POSIX paths, with the roots [/] and [//] of [pathlib].  The
      file tree is a finite map from absolute paths (lists of components) to
      nodes; it has no symbolic links and [..] is resolved lexically.
    - The configuration file is kept apart from the tree and is represented
      by what [json.load] reads from it.
    - The worker is run as one sequential computation; the UI handles its
      events in the order of the queue.
    - Labels, message boxes and widget layout are not modelled. *)

From Stdlib Require Import ZArith String Ascii List Floats.SpecFloat.
From Stdlib Require Import DecimalString DecimalNat.
From stdpp Require Import gmap strings list.

Open Scope Z_scope.
Open Scope nat_scope.

(** ** Exceptions and the state-and-exception monad *)

(** An exception [e] with [str(e) = msg]: an instance of [Exception], or one
    of the exceptions outside it ([SystemExit], [KeyboardInterrupt],
    [GeneratorExit]), which an [except Exception] clause lets through. *)
Inductive exn : Type :=
| Exception (msg : string)
| BaseException (msg : string).


(** [isinstance(e, Exception)] *)
Definition is_Exception (e : exn) : bool :=
  match e with
  | Exception _ => true
  | BaseException _ => false
  end.

Inductive exc (A : Type) : Type :=
| Ok (a : A)
| Raise (e : exn).
Arguments Ok {A} a.
Arguments Raise {A} e.

(** A computation over a state [S]: what it has done to the state stays done
    when it raises. *)
Definition M (S A : Type) : Type := S -> exc A * S.

Definition ret {S A} (a : A) : M S A := fun s => (Ok a, s).

Definition bind {S A B} (m : M S A) (f : A -> M S B) : M S B :=
  fun s => match m s with
           | (Ok a, s1) => f a s1
           | (Raise e, s1) => (Raise e, s1)
           end.

Definition raise {S A} (e : exn) : M S A := fun s => (Raise e, s).

Definition lift_exc {S A} (r : exc A) : M S A := fun s => (r, s).

Definition gets {S A} (f : S -> A) : M S A := fun s => (Ok (f s), s).

Definition modify {S} (f : S -> S) : M S unit := fun s => (Ok tt, f s).

(** [try: body / except Exception as e: handler(str(e))]: an exception
    that is no instance of [Exception] is not caught. *)
Definition try_except {S A} (body : M S A) (handler : string -> M S A) : M S A :=
  fun s => match body s with
           | (Ok a, s1) => (Ok a, s1)
           | (Raise (Exception msg), s1) => handler msg s1
           | (Raise (BaseException msg), s1) => (Raise (BaseException msg), s1)
           end.

Declare Scope py_scope.
Delimit Scope py_scope with py.
Notation "x <- c1 ;; c2" := (bind c1 (fun x => c2))
  (at level 100, c1 at next level, right associativity) : py_scope.
Notation "c1 ;; c2" := (bind c1 (fun _ => c2))
  (at level 100, right associativity) : py_scope.
Open Scope py_scope.

(** ** Strings *)

(** [str.isspace] on the code points below U+0100. *)
Definition py_isspace (c : ascii) : bool :=
  let n := nat_of_ascii c in
  ((9 <=? n) && (n <=? 13)) || ((28 <=? n) && (n <=? 32))
  || (n =? 133) || (n =? 160).

Fixpoint lstrip (s : string) : string :=
  match s with
  | EmptyString => EmptyString
  | String c s' => if py_isspace c then lstrip s' else s
  end.

Fixpoint rstrip (s : string) : string :=
  match s with
  | EmptyString => EmptyString
  | String c s' =>
      match rstrip s' with
      | EmptyString => if py_isspace c then EmptyString else String c EmptyString
      | r => String c r
      end
  end.

(** [s.strip()] *)
Definition strip (s : string) : string := rstrip (lstrip s).

(** [c.lower()] on the code points below U+0100. *)
Definition lower_char (c : ascii) : ascii :=
  let n := nat_of_ascii c in
  if ((65 <=? n) && (n <=? 90))
     || ((192 <=? n) && (n <=? 222) && negb (n =? 215))
  then ascii_of_nat (n + 32) else c.

Fixpoint lower (s : string) : string :=
  match s with
  | EmptyString => EmptyString
  | String c s' => String (lower_char c) (lower s')
  end.

(** [s.rfind('.')], [None] standing for -1. *)
Fixpoint rfind_dot (s : string) : option nat :=
  match s with
  | EmptyString => None
  | String c s' =>
      match rfind_dot s' with
      | Some i => Some (S i)
      | None => if Ascii.eqb c "."%char then Some 0 else None
      end
  end.

(** [str(n)] for a natural number. *)
Definition str_of_nat (n : nat) : string :=
  NilEmpty.string_of_uint (Nat.to_uint n).

Definition digit_char (n : nat) : ascii := ascii_of_nat (48 + n mod 10).

(** A number below 100 on two digits, as [%H], [%M] and [%S] print it. *)
Definition two_digits (n : nat) : string :=
  String (digit_char (n / 10)) (String (digit_char n) EmptyString).

Definition is_digit (c : ascii) : bool :=
  let n := nat_of_ascii c in (48 <=? n) && (n <=? 57).

Fixpoint all_digits (s : string) : bool :=
  match s with
  | EmptyString => true
  | String c s' => is_digit c && all_digits s'
  end.

(** [repr(s)] for a string of code points below U+0100: in single quotes,
    or in double quotes when [s] has a single quote and no double quote; the
    quote, the backslash and the code points that are not printable are
    escaped. *)
Definition QUOTE : ascii := ascii_of_nat 39.
Definition DQUOTE : ascii := ascii_of_nat 34.
Definition BACKSLASH : ascii := ascii_of_nat 92.

Fixpoint contains (c : ascii) (s : string) : bool :=
  match s with
  | EmptyString => false
  | String c' s' => Ascii.eqb c c' || contains c s'
  end.

Definition is_printable (c : ascii) : bool :=
  let n := nat_of_ascii c in
  negb ((n <? 32) || ((127 <=? n) && (n <=? 160)) || (n =? 173)).

Definition hex_digit (n : nat) : ascii :=
  ascii_of_nat (if n <? 10 then 48 + n else 87 + n).

Definition repr_char (quote c : ascii) : string :=
  let n := nat_of_ascii c in
  if Ascii.eqb c quote || Ascii.eqb c BACKSLASH
  then String BACKSLASH (String c EmptyString)
  else if n =? 9 then String BACKSLASH "t"
  else if n =? 10 then String BACKSLASH "n"
  else if n =? 13 then String BACKSLASH "r"
  else if is_printable c then String c EmptyString
  else String BACKSLASH
         (String "x" (String (hex_digit (n / 16))
                        (String (hex_digit (n mod 16)) EmptyString))).

Fixpoint repr_chars (quote : ascii) (s : string) : string :=
  match s with
  | EmptyString => String quote EmptyString
  | String c s' => repr_char quote c +:+ repr_chars quote s'
  end.

Definition py_repr (s : string) : string :=
  let quote := if contains QUOTE s && negb (contains DQUOTE s)
               then DQUOTE else QUOTE in
  String quote (repr_chars quote s).

(** The two-character string of a line feed followed by a line feed. *)
Definition LF : ascii := ascii_of_nat 10.
Definition blank_line : string := String LF (String LF EmptyString).

(** ** Floats *)

Abbreviation float := spec_float.

Definition prec : Z := 53%Z.
Definition emax : Z := 1024%Z.

Definition fdiv : float -> float -> float := SFdiv prec emax.
Definition fmul : float -> float -> float := SFmul prec emax.
Definition fsub : float -> float -> float := SFsub prec emax.

(** The binary64 value of [m * 2^e], in canonical form. *)
Definition float_of (m e : Z) : float := binary_normalize prec emax m e false.

Definition f_zero : float := S754_zero false.
Definition f_100 : float := Eval vm_compute in float_of 100 0.

(** Truth value of a float: every float but the two zeros is true. *)
Definition float_truthy (x : float) : bool :=
  match x with
  | S754_zero _ => false
  | _ => true
  end.

(** [x / y]; Python raises on a zero divisor. *)
Definition py_truediv (x y : float) : exc float :=
  if float_truthy y then Ok (fdiv x y)
  else Raise (Exception "float division by zero").

(** [max(a, b)] and [min(a, b)]: the first argument wins unless the second is
    strictly better. *)
Definition py_max (a b : float) : float := if SFltb a b then b else a.
Definition py_min (a b : float) : float := if SFltb b a then b else a.

(** [int(x)]: truncation toward zero. *)
Definition py_int (x : float) : exc Z :=
  match x with
  | S754_zero _ => Ok 0%Z
  | S754_infinity _ => Raise (Exception "cannot convert float infinity to integer")
  | S754_nan => Raise (Exception "cannot convert float NaN to integer")
  | S754_finite s m e =>
      let a := Z.shiftl (Z.pos m) e in
      Ok (if s then Z.opp a else a)
  end.

(** ** Paths *)

(** The root of a POSIX path: none, [/], or the [//] that exactly two
    leading slashes make. *)
Inductive anchor : Type :=
| NoRoot
| Root
| Root2.

#[global] Instance anchor_eq_dec : EqDecision anchor.
Proof. solve_decision. Defined.

(** A [pathlib.Path]: its root and its components. *)
Record Path : Type := PosixPath { p_root : anchor; p_parts : list string }.

#[global] Instance Path_eq_dec : EqDecision Path.
Proof. solve_decision. Defined.

(** The path of the components [parts] below the root [/], or relative. *)
Definition mkPath (abs : bool) (parts : list string) : Path :=
  {| p_root := if abs then Root else NoRoot; p_parts := parts |}.

(** [p.is_absolute()] *)
Definition p_abs (p : Path) : bool :=
  match p_root p with
  | NoRoot => false
  | _ => true
  end.

Definition SLASH : ascii := "/"%char.

(** [s.split(sep)] *)
Fixpoint split_on (sep : ascii) (s : string) : list string :=
  match s with
  | EmptyString => [EmptyString]
  | String c s' =>
      if Ascii.eqb c sep then EmptyString :: split_on sep s'
      else match split_on sep s' with
           | [] => [String c EmptyString]
           | h :: t => String c h :: t
           end
  end.

(** No character of [s] is a slash. *)
Fixpoint no_slash (s : string) : bool :=
  match s with
  | EmptyString => true
  | String c s' => negb (Ascii.eqb c SLASH) && no_slash s'
  end.

Definition kept_component (c : string) : bool :=
  negb (String.eqb c "") && negb (String.eqb c ".").

Definition starts_with_slash (s : string) : bool :=
  match s with
  | String c _ => Ascii.eqb c SLASH
  | EmptyString => false
  end.

(** The root of [Path(s)]: two leading slashes make [//], one or more than
    two make [/]. *)
Definition root_of_str (s : string) : anchor :=
  match s with
  | String c1 s1 =>
      if Ascii.eqb c1 SLASH then
        match s1 with
        | String c2 s2 =>
            if Ascii.eqb c2 SLASH then
              if starts_with_slash s2 then Root else Root2
            else Root
        | EmptyString => Root
        end
      else NoRoot
  | EmptyString => NoRoot
  end.

(** [str] of a root. *)
Definition anchor_str (r : anchor) : string :=
  match r with
  | NoRoot => ""
  | Root => "/"
  | Root2 => "//"
  end.

(** A component that [Path] keeps as it is, and a path made of such. *)
Definition plain_component (c : string) : bool := no_slash c && kept_component c.

(** [Path(s)]: empty and [.] components are dropped. *)
Definition path_of_str (s : string) : Path :=
  {| p_root := root_of_str s;
     p_parts := List.filter kept_component (split_on SLASH s) |}.

Definition plain_path (p : Path) : bool := forallb plain_component (p_parts p).

(** [str(p)] *)
Definition path_str (p : Path) : string :=
  match p_root p, p_parts p with
  | NoRoot, [] => "."
  | r, ps => anchor_str r +:+ String.concat "/" ps
  end.

(** [p.name] *)
Definition path_name (p : Path) : string := List.last (p_parts p) "".

(** [p.suffix] *)
Definition path_suffix (p : Path) : string :=
  let name := path_name p in
  match rfind_dot name with
  | Some i =>
      if (0 <? i) && (i <? String.length name - 1)
      then String.substring i (String.length name - i) name
      else ""
  | None => ""
  end.

(** [p / s] *)
Definition path_div (p : Path) (s : string) : Path :=
  let q := path_of_str s in
  if p_abs q then q
  else {| p_root := p_root p; p_parts := p_parts p ++ p_parts q |}.

(** ** The file tree *)

Inductive node : Type :=
| Dir
| File (encoding : string) (content : string).

#[global] Instance node_eq_dec : EqDecision node.
Proof. solve_decision. Defined.

Abbreviation tree := (gmap (list string) node).

(** The root is always a directory. *)
Definition stat (fs : tree) (k : list string) : option node :=
  match k with
  | [] => Some Dir
  | _ => fs !! k
  end.

Fixpoint normalize (acc parts : list string) : list string :=
  match parts with
  | [] => acc
  | c :: r =>
      if String.eqb c ".." then normalize (removelast acc) r
      else normalize (acc ++ [c]) r
  end.

(** The absolute location a path denotes from the working directory [cwd];
    the root [//] is the root [/] to the system. *)
Definition locate (cwd : list string) (p : Path) : list string :=
  normalize (if p_abs p then [] else cwd) (p_parts p).

(** [str(e)] of an [OSError] of the system call on the file [name]. *)
Definition os_error (errno : string) (name : string) : exn :=
  Exception (errno +:+ ": " +:+ py_repr name).

Definition EEXIST : string := "[Errno 17] File exists".
Definition ENOTDIR : string := "[Errno 20] Not a directory".
Definition EISDIR : string := "[Errno 21] Is a directory".
Definition ENOENT : string := "[Errno 2] No such file or directory".

(** Creation of the directory [done ++ todo] and of every missing ancestor
    below [done]: the net effect of [mkdir(parents=True, exist_ok=True)] on
    the path written [name].  A file in the way makes the first [os.mkdir],
    which is that of the whole path, fail. *)
Fixpoint mkdir_parents (name : string) (fs : tree) (done todo : list string)
    : exc tree :=
  match todo with
  | [] => Ok fs
  | c :: r =>
      let k := done ++ [c] in
      match fs !! k with
      | Some Dir => mkdir_parents name fs k r
      | Some (File _ _) =>
          Raise (os_error (match r with
                           | [] => EEXIST
                           | _ => ENOTDIR
                           end) name)
      | None => mkdir_parents name (<[k := Dir]> fs) k r
      end
  end.

(** [open(name, "w", encoding=enc)], [k] being where [name] is: the parent
    must be a directory and [k] must not be one; the file is created or
    truncated. *)
Definition open_w (name : string) (fs : tree) (k : list string) (enc : string)
    : exc tree :=
  match k with
  | [] => Raise (os_error EISDIR name)
  | _ =>
      match stat fs (removelast k) with
      | Some Dir =>
          match fs !! k with
          | Some Dir => Raise (os_error EISDIR name)
          | _ => Ok (<[k := File enc ""]> fs)
          end
      | Some (File _ _) => Raise (os_error ENOTDIR name)
      | None => Raise (os_error ENOENT name)
      end
  end.

(** [f.write(text)] on the file opened at [k]. *)
Definition append_text (fs : tree) (k : list string) (text : string) : tree :=
  match fs !! k with
  | Some (File enc c) => <[k := File enc (c +:+ text)]> fs
  | _ => fs
  end.

(** ** The outside world *)

(** A value read by [json.load].  A dict is given by its items, each key
    once. *)
#[local] Unset Elimination Schemes.
Inductive json : Type :=
| JNull
| JBool (b : bool)
| JInt (n : Z)
| JFloat (x : float)
| JStr (s : string)
| JList (l : list json)
| JDict (items : list (string * json)).
#[local] Set Elimination Schemes.

(** A speech segment of the engine: [seg.text] and [seg.end]. *)
Record Segment : Type := mkSegment {
  seg_text : option string;
  seg_end : option float
}.

(** What [model.transcribe] returns: a lazy sequence of segments, which may
    raise once the segments of [tr_segments] have been yielded, and
    [info.duration] when [info] has it. *)
Record Transcription : Type := mkTranscription {
  tr_segments : list Segment;
  tr_fail : option exn;
  tr_duration : option float
}.

(** The oracle of the outside world; the [nat] argument is the tick at which
    the program asks.  A fault of the disk is an [OSError], of which the
    oracle gives the text. *)
Record Env : Type := mkEnv {
  env_home : list string;
  env_cwd : list string;
  env_time : nat -> float;
  env_now : nat -> nat;
  env_load_model : nat -> exc unit;
  env_transcribe : nat -> string -> exc Transcription;
  env_fault : nat -> option string
}.

(** The state of the world.  The configuration file has a fixed path of its
    own; the model keeps it apart from the tree of directories and
    transcripts and represents its content by what [json.load] makes of it:
    [None] when the file is absent, [Some (Raise e)] when opening or
    parsing it raises [e], [Some (Ok j)] when it reads as [j]. *)
Record World : Type := mkWorld {
  w_tick : nat;
  w_fs : tree;
  w_config : option (exc json)
}.

Definition set_tick (t : nat) (w : World) : World :=
  {| w_tick := t; w_fs := w_fs w; w_config := w_config w |}.
Definition set_fs (fs : tree) (w : World) : World :=
  {| w_tick := w_tick w; w_fs := fs; w_config := w_config w |}.
Definition set_config (c : option (exc json)) (w : World) : World :=
  {| w_tick := w_tick w; w_fs := w_fs w; w_config := c |}.

(** ** Operations on the world *)

Section WorldOps.
Variable env : Env.

(** One interaction with the outside: the current tick, which advances. *)
Definition tick : M World nat :=
  fun w => (Ok (w_tick w), set_tick (S (w_tick w)) w).

(** [time.time()] *)
Definition time_time : M World float :=
  t <- tick ;; ret (env_time env t).

(** [datetime.now().strftime("%H%M%S")] *)
Definition strftime_HMS (secs : nat) : string :=
  two_digits ((secs / 3600) mod 24) +:+ two_digits ((secs / 60) mod 60)
  +:+ two_digits (secs mod 60).

Definition now_HMS : M World string :=
  t <- tick ;; ret (strftime_HMS (env_now env t)).

(** An operation on the disk starts by asking the oracle for a fault. *)
Definition io_fault : M World unit :=
  t <- tick ;;
  match env_fault env t with
  | Some msg => raise (Exception msg)
  | None => ret tt
  end.

(** [p.exists()] and [p.is_dir()] *)
Definition path_exists (w : World) (p : Path) : bool :=
  bool_decide (is_Some (stat (w_fs w) (locate (env_cwd env) p))).
Definition path_is_dir (w : World) (p : Path) : bool :=
  bool_decide (stat (w_fs w) (locate (env_cwd env) p) = Some Dir).

(** [p.resolve()]: the result has the root [/]. *)
Definition path_resolve (p : Path) : exc Path :=
  Ok {| p_root := Root; p_parts := locate (env_cwd env) p |}.

(** [p.mkdir(parents=True, exist_ok=True)] *)
Definition path_mkdir (p : Path) : M World unit :=
  io_fault ;;
  fs <- gets w_fs ;;
  fs' <- lift_exc (mkdir_parents (path_str p) fs [] (locate (env_cwd env) p)) ;;
  modify (set_fs fs').

(** [f = p.open("w", encoding=enc)] *)
Definition path_open_w (p : Path) (enc : string) : M World unit :=
  io_fault ;;
  fs <- gets w_fs ;;
  fs' <- lift_exc (open_w (path_str p) fs (locate (env_cwd env) p) enc) ;;
  modify (set_fs fs').

(** [f.write(text)] *)
Definition file_write (p : Path) (text : string) : M World unit :=
  io_fault ;;
  modify (fun w => set_fs (append_text (w_fs w) (locate (env_cwd env) p) text) w).

(** Leaving the [with] block closes the file. *)
Definition file_close : M World unit := io_fault.

(** [model = load_model()] *)
Definition load_model : M World unit :=
  t <- tick ;; lift_exc (env_load_model env t).

(** [model.transcribe(path, beam_size=1, vad_filter=True,
    word_timestamps=False)] *)
Definition model_transcribe (path : string) : M World Transcription :=
  t <- tick ;; lift_exc (env_transcribe env t path).
End WorldOps.

(** ** Configuration: [load_output_dir] and [save_output_dir] *)

(** The key of the configuration object. *)
Definition OUTPUT_DIR_KEY : string := "output_dir".

(** [d[key]] on the items of a dict. *)
Fixpoint dict_lookup (items : list (string * json)) (key : string) : option json :=
  match items with
  | [] => None
  | (k, v) :: r => if String.eqb k key then Some v else dict_lookup r key
  end.

(** [type(v).__name__] *)
Definition type_name (v : json) : string :=
  match v with
  | JNull => "NoneType"
  | JBool _ => "bool"
  | JInt _ => "int"
  | JFloat _ => "float"
  | JStr _ => "str"
  | JList _ => "list"
  | JDict _ => "dict"
  end.

(** [data.get(key, default)]: of the values [json.load] gives, only a dict
    has [get]. *)
Definition json_get (data : json) (key : string) (default : json) : exc json :=
  match data with
  | JDict items =>
      Ok (match dict_lookup items key with Some v => v | None => default end)
  | _ =>
      Raise (Exception (String QUOTE (type_name data) +:+ String QUOTE
                          (" object has no attribute " +:+ py_repr "get")))
  end.

(** [Path(v)]: only a string makes a path. *)
Definition Path_of_json (v : json) : exc Path :=
  match v with
  | JStr s => Ok (path_of_str s)
  | _ =>
      Raise (Exception ("expected str, bytes or os.PathLike object, not "
                        +:+ type_name v))
  end.

Section Config.
Variable env : Env.

(** [DEFAULT_DOWNLOADS_DIR = Path.home() / "Downloads"] *)
Definition DEFAULT_DOWNLOADS_DIR : Path :=
  {| p_root := Root; p_parts := env_home env ++ ["Downloads"] |}.

(** [CONFIG_PATH = Path.home() / ".whisper_call_transcriber_config.json"] *)
Definition CONFIG_PATH : Path :=
  {| p_root := Root;
     p_parts := env_home env ++ [".whisper_call_transcriber_config.json"] |}.

(** [with CONFIG_PATH.open("r", encoding="utf-8") as f: data = json.load(f)] *)
Definition read_config : M World json :=
  c <- gets w_config ;;
  match c with
  | Some r => lift_exc r
  | None => raise (os_error ENOENT (path_str CONFIG_PATH))
  end.

(** The [try] block of [load_output_dir]: [Some out] when it returns [out],
    [None] when control leaves it without returning. *)
Definition load_output_dir_try : M World (option Path) :=
  c <- gets w_config ;;
  if bool_decide (is_Some c) then
    data <- read_config ;;
    v <- lift_exc (json_get data OUTPUT_DIR_KEY (JStr "")) ;;
    out <- lift_exc (Path_of_json v) ;;
    w <- gets id ;;
    if path_exists env w out && path_is_dir env w out
    then ret (Some out)
    else ret None
  else ret None.

Definition load_output_dir : M World Path :=
  r <- try_except load_output_dir_try (fun _ => ret None) ;;
  match r with
  | Some out => ret out
  | None =>
      path_mkdir env DEFAULT_DOWNLOADS_DIR ;;
      ret DEFAULT_DOWNLOADS_DIR
  end.

(** What [json.load] raises on a file that holds nothing. *)
Definition EMPTY_JSON : exn := Exception "Expecting value: line 1 column 1 (char 0)".

(** [CONFIG_PATH.write_text(json.dumps({"output_dir": str(output_dir)},
    indent=2), encoding="utf-8")].  The file is opened for writing, which
    truncates it, and then written: when the opening fails the file is as
    before, when the writing fails the file is left without the text, and
    does not parse; otherwise it reads as the object that was dumped. *)
Definition write_config (output_dir : Path) : M World unit :=
  io_fault env ;;
  modify (set_config (Some (Raise EMPTY_JSON))) ;;
  io_fault env ;;
  modify (set_config
            (Some (Ok (JDict [(OUTPUT_DIR_KEY, JStr (path_str output_dir))])))).

Definition save_output_dir (output_dir : Path) : M World unit :=
  try_except (write_config output_dir) (fun _ => ret tt).
End Config.

(** ** The application object *)

(** The tuples the worker puts on the queue. *)
Inductive Event : Type :=
| Status (text : string)
| FileStart (idx total : nat) (filename : string)
| SegmentEv (text : string) (percent : Z)
| FileDone (idx total : nat) (filename out_path : string) (file_elapsed : float)
| AllDone (total_elapsed : float)
| ErrorEv (err_text : string).

(** The fields of [TranscriberApp]; of the widgets, the list box, the two
    progress bars and the state of the three buttons. *)
Record App : Type := mkApp {
  queue : list Event;
  audio_files : list Path;
  worker_files : list Path;
  total_files : nat;
  files_done : nat;
  output_dir : Path;
  is_transcribing : bool;
  file_listbox : list string;
  file_progress_bar : Z;
  overall_progress_max : nat;
  overall_progress_bar : nat;
  select_button : bool;
  start_button : bool;
  change_output_button : bool
}.

Definition set_queue (q : list Event) (a : App) : App :=
  mkApp q (audio_files a) (worker_files a) (total_files a) (files_done a)
    (output_dir a) (is_transcribing a) (file_listbox a) (file_progress_bar a)
    (overall_progress_max a) (overall_progress_bar a) (select_button a)
    (start_button a) (change_output_button a).

Definition set_staged (fs : list Path) (box : list string) (a : App) : App :=
  mkApp (queue a) fs (worker_files a) (total_files a) (files_done a)
    (output_dir a) (is_transcribing a) box (file_progress_bar a)
    (overall_progress_max a) (overall_progress_bar a) (select_button a)
    (start_button a) (change_output_button a).

Definition set_total_files (n : nat) (a : App) : App :=
  mkApp (queue a) (audio_files a) (worker_files a) n (files_done a)
    (output_dir a) (is_transcribing a) (file_listbox a) (file_progress_bar a)
    (overall_progress_max a) (overall_progress_bar a) (select_button a)
    (start_button a) (change_output_button a).

Definition set_start_button (b : bool) (a : App) : App :=
  mkApp (queue a) (audio_files a) (worker_files a) (total_files a) (files_done a)
    (output_dir a) (is_transcribing a) (file_listbox a) (file_progress_bar a)
    (overall_progress_max a) (overall_progress_bar a) (select_button a)
    b (change_output_button a).

Definition set_output_dir (p : Path) (a : App) : App :=
  mkApp (queue a) (audio_files a) (worker_files a) (total_files a) (files_done a)
    p (is_transcribing a) (file_listbox a) (file_progress_bar a)
    (overall_progress_max a) (overall_progress_bar a) (select_button a)
    (start_button a) (change_output_button a).

(** The application object together with the world it runs in. *)
Record St : Type := mkSt { self : App; world : World }.

Definition on_world {A} (m : M World A) : M St A :=
  fun st => let '(r, w) := m (world st) in (r, mkSt (self st) w).

Definition on_self {A} (m : M App A) : M St A :=
  fun st => let '(r, a) := m (self st) in (r, mkSt a (world st)).

(** [self.queue.put(ev)] *)
Definition queue_put (ev : Event) : M St unit :=
  modify (fun st => mkSt (set_queue (queue (self st) ++ [ev]) (self st)) (world st)).

(** ** The worker *)

(** [getattr(info, "duration", None) or 0.0] *)
Definition duration_of (d : option float) : float :=
  match d with
  | Some x => if float_truthy x then x else f_zero
  | None => f_zero
  end.

(** The percentage of a segment.  The integer literals 0 and 100 of the
    source are compared as the floats 0.0 and 100.0, which is how Python
    compares them, and [int] maps either form to the same integer.
<<
    if duration > 0 and seg.end is not None:
        percent = int(min(max(seg.end / duration * 100, 0), 100))
    else:
        percent = 0
>> *)
Definition percent_of (duration : float) (seg_end : option float) : exc Z :=
  match SFltb f_zero duration, seg_end with
  | true, Some e =>
      match py_truediv e duration with
      | Ok q => py_int (py_min (py_max (fmul q f_100) f_zero) f_100)
      | Raise e => Raise e
      end
  | _, _ => Ok 0%Z
  end.

(** [(seg.text or "").strip()] *)
Definition segment_text (seg : Segment) : string :=
  strip (match seg_text seg with Some t => t | None => "" end).

(** What one segment contributes: nothing when its text is blank, otherwise
    its line and its [segment] event. *)
Definition segment_event (duration : float) (seg : Segment) : exc (option Event) :=
  let text := segment_text seg in
  if String.eqb text "" then Ok None
  else match percent_of duration (seg_end seg) with
       | Ok percent => Ok (Some (SegmentEv text percent))
       | Raise e => Raise e
       end.

Section Worker.
Variable env : Env.

(** [for seg in segments: ...], [lines] being the buffer so far.  The source
    appends the line before it computes the percentage; the buffer is local,
    so the order shows only when the percentage raises, and then the buffer is
    lost with the run. *)
Fixpoint segments_loop (duration : float) (segs : list Segment)
    (lines : list string) : M St (list string) :=
  match segs with
  | [] => ret lines
  | seg :: rest =>
      ev <- lift_exc (segment_event duration seg) ;;
      match ev with
      | None => segments_loop duration rest lines
      | Some e =>
          queue_put e ;;
          segments_loop duration rest (lines ++ [segment_text seg])
      end
  end.

(** [for line in lines: f.write(line + "\n\n")] *)
Fixpoint write_lines (out_path : Path) (lines : list string) : M St unit :=
  match lines with
  | [] => ret tt
  | line :: rest =>
      on_world (file_write env out_path (line +:+ blank_line)) ;;
      write_lines out_path rest
  end.

(** [f"Call{idx}_{timestamp_str}.txt"] *)
Definition out_name (idx : nat) (timestamp_str : string) : string :=
  "Call" +:+ str_of_nat idx +:+ "_" +:+ timestamp_str +:+ ".txt".

(** The body of the loop over the snapshot.  The segments are consumed
    first, and the exception the lazy sequence may end with is raised once
    they are; the [with] block is the opening of the file, the writes and the
    closing. *)
Definition transcribe_file (idx : nat) (audio_path : Path) : M St unit :=
  file_start <- on_world (time_time env) ;;
  total <- gets (fun st => total_files (self st)) ;;
  queue_put (FileStart idx total (path_name audio_path)) ;;
  tr <- on_world (model_transcribe env (path_str audio_path)) ;;
  let duration := duration_of (tr_duration tr) in
  lines <- segments_loop duration (tr_segments tr) [] ;;
  match tr_fail tr with Some e => raise e | None => ret tt end ;;
  timestamp_str <- on_world (now_HMS env) ;;
  let name := out_name idx timestamp_str in
  dir <- gets (fun st => output_dir (self st)) ;;
  let out_path := path_div dir name in
  dir' <- gets (fun st => output_dir (self st)) ;;
  on_world (path_mkdir env dir') ;;
  on_world (path_open_w env out_path "utf-8") ;;
  write_lines out_path lines ;;
  on_world (file_close env) ;;
  t <- on_world (time_time env) ;;
  let file_elapsed := fsub t file_start in
  total' <- gets (fun st => total_files (self st)) ;;
  queue_put (FileDone idx total' (path_name audio_path) (path_str out_path)
               file_elapsed).

(** [for idx, audio_path in enumerate(self.worker_files, start=1): ...] *)
Fixpoint for_files (idx : nat) (files : list Path) : M St unit :=
  match files with
  | [] => ret tt
  | audio_path :: rest =>
      transcribe_file idx audio_path ;;
      for_files (S idx) rest
  end.

(** The statements before the loop. *)
Definition worker_setup : M St float :=
  start_time <- on_world (time_time env) ;;
  queue_put (Status "Loading model (small, int8 on CPU)...") ;;
  on_world (load_model env) ;;
  queue_put (Status "Model loaded. Starting transcription...") ;;
  ret start_time.

(** The [try] block of [worker_transcribe_all]. *)
Definition worker_body : M St unit :=
  start_time <- worker_setup ;;
  files <- gets (fun st => worker_files (self st)) ;;
  for_files 1 files ;;
  t <- on_world (time_time env) ;;
  queue_put (AllDone (fsub t start_time)).

Definition worker_transcribe_all : M St unit :=
  try_except worker_body (fun msg => queue_put (ErrorEv msg)).
End Worker.

(** ** The UI controller *)

(** [handle_message(msg)] *)
Definition handle_message (msg : Event) (a : App) : App :=
  match msg with
  | Status _ => a
  | FileStart _ _ _ =>
      mkApp (queue a) (audio_files a) (worker_files a) (total_files a)
        (files_done a) (output_dir a) (is_transcribing a) (file_listbox a)
        0%Z (overall_progress_max a) (files_done a) (select_button a)
        (start_button a) (change_output_button a)
  | SegmentEv _ percent =>
      mkApp (queue a) (audio_files a) (worker_files a) (total_files a)
        (files_done a) (output_dir a) (is_transcribing a) (file_listbox a)
        percent (overall_progress_max a) (overall_progress_bar a)
        (select_button a) (start_button a) (change_output_button a)
  | FileDone _ _ _ _ _ =>
      mkApp (queue a) (audio_files a) (worker_files a) (total_files a)
        (files_done a + 1) (output_dir a) (is_transcribing a) (file_listbox a)
        100%Z (overall_progress_max a) (files_done a + 1) (select_button a)
        (start_button a) (change_output_button a)
  | AllDone _ =>
      mkApp (queue a) (audio_files a) (worker_files a) (total_files a)
        (files_done a) (output_dir a) false (file_listbox a)
        (file_progress_bar a) (overall_progress_max a) (overall_progress_bar a)
        true true true
  | ErrorEv _ =>
      mkApp (queue a) (audio_files a) (worker_files a) (total_files a)
        (files_done a) (output_dir a) false (file_listbox a)
        (file_progress_bar a) (overall_progress_max a) (overall_progress_bar a)
        true true true
  end.

(** The messages of [msgs] handled in order. *)
Definition handle_all (msgs : list Event) (a : App) : App :=
  fold_left (fun a msg => handle_message msg a) msgs a.

(** [process_queue]: every message now on the queue is taken and handled. *)
Definition process_queue (a : App) : App :=
  handle_all (queue a) (set_queue [] a).

(** [on_start_transcription]; the boolean tells whether a worker thread was
    started. *)
Definition on_start_transcription (a : App) : App * bool :=
  if is_transcribing a then (a, false)
  else match audio_files a with
       | [] => (a, false)
       | _ =>
           let snapshot := audio_files a in
           (mkApp (queue a) [] snapshot (length snapshot) 0 (output_dir a)
              true [] 0%Z (Nat.max (length snapshot) 1) 0 false false false,
            true)
       end.

(** [SUPPORTED_EXTS] *)
Definition SUPPORTED_EXTS : list string :=
  [".mp3"; ".wav"; ".m4a"; ".mp4"; ".aac"; ".flac"; ".ogg"].

Definition supported (suffix : string) : bool :=
  existsb (String.eqb suffix) SUPPORTED_EXTS.

Section SelectFiles.
(** [f.exists()] and [f.resolve()] as the disk answers them. *)
Variable p_exists : Path -> bool.
Variable p_resolve : Path -> exc Path.

(** [f.resolve() if f.exists() else f] *)
Definition staged_key (f : Path) : exc Path :=
  if p_exists f then p_resolve f else Ok f.

(** [any(key(f) == resolved for f in audio_files)] *)
Fixpoint any_staged (resolved : Path) (staged : list Path) : exc bool :=
  match staged with
  | [] => Ok false
  | f :: rest =>
      match staged_key f with
      | Ok k => if bool_decide (k = resolved) then Ok true
                else any_staged resolved rest
      | Raise e => Raise e
      end
  end.

(** One turn of the loop over the selected names; [true] when the file was
    appended. *)
Definition select_one (p : string) : M App bool :=
  let path_obj := path_of_str p in
  if negb (supported (lower (path_suffix path_obj))) then ret false
  else
    resolved <- try_except (lift_exc (p_resolve path_obj))
                  (fun _ => ret path_obj) ;;
    staged <- gets audio_files ;;
    already <- lift_exc (any_staged resolved staged) ;;
    if already then ret false
    else
      modify (fun a => set_staged (audio_files a ++ [path_obj])
                         (file_listbox a ++ [path_name path_obj]) a) ;;
      ret true.

Fixpoint select_loop (filepaths : list string) (added : nat) : M App nat :=
  match filepaths with
  | [] => ret added
  | p :: rest =>
      b <- select_one p ;;
      select_loop rest (if b then added + 1 else added)
  end.

(** [on_select_files], [filepaths] being what the file dialog returned. *)
Definition on_select_files (filepaths : list string) : M App unit :=
  busy <- gets is_transcribing ;;
  if busy then ret tt
  else match filepaths with
       | [] => ret tt
       | _ =>
           added <- select_loop filepaths 0 ;;
           modify (fun a => set_total_files (length (audio_files a)) a) ;;
           total <- gets total_files ;;
           if total =? 0 then modify (set_start_button false)
           else modify (set_start_button true)
       end.
End SelectFiles.

Section ChangeOutputDir.
Variable env : Env.

(** [on_change_output_dir], [new_dir] being what the directory dialog
    returned. *)
Definition on_change_output_dir (new_dir : string) : M St unit :=
  if String.eqb new_dir "" then ret tt
  else
    let out_path := path_of_str new_dir in
    made <- try_except (on_world (path_mkdir env out_path) ;; ret true)
              (fun _ => ret false) ;;
    if made then
      modify (fun st => mkSt (set_output_dir out_path (self st)) (world st)) ;;
      on_world (save_output_dir env out_path)
    else ret tt.
End ChangeOutputDir.

(** ** The percentage as the specification words it *)




(** ** Vocabulary of the statements *)

(** The application object after the events [evs] have been put on its
    queue. *)
Definition emit (a : App) (evs : list Event) : App :=
  set_queue (queue a ++ evs) a.

Definition is_segment_ev (e : Event) : bool :=
  match e with SegmentEv _ _ => true | _ => false end.
Definition is_file_done (e : Event) : bool :=
  match e with FileDone _ _ _ _ _ => true | _ => false end.
Definition is_error (e : Event) : bool :=
  match e with ErrorEv _ => true | _ => false end.
Definition is_all_done (e : Event) : bool :=
  match e with AllDone _ => true | _ => false end.

Definition count_ev (f : Event -> bool) (evs : list Event) : nat :=
  length (List.filter f evs).

(** What the [except Exception] clause of the worker makes of the result [r]
    of its [try] block: the [error] event it puts on the queue, and the
    exception it lets through. *)
Definition error_events (r : exc unit) : list Event :=
  match r with
  | Raise (Exception msg) => [ErrorEv msg]
  | _ => []
  end.

Definition uncaught (r : exc unit) : exc unit :=
  match r with
  | Raise (BaseException msg) => Raise (BaseException msg)
  | _ => Ok tt
  end.

(** The indices of the [file_start] events, and of the [file_done] events. *)
Fixpoint started (evs : list Event) : list nat :=
  match evs with
  | [] => []
  | FileStart idx _ _ :: r => idx :: started r
  | _ :: r => started r
  end.

Fixpoint finished (evs : list Event) : list nat :=
  match evs with
  | [] => []
  | FileDone idx _ _ _ _ :: r => idx :: finished r
  | _ :: r => finished r
  end.

(** The texts of the [segment] events. *)
Fixpoint segment_texts (evs : list Event) : list string :=
  match evs with
  | [] => []
  | SegmentEv text _ :: r => text :: segment_texts r
  | _ :: r => segment_texts r
  end.

(** The non-empty recognized lines of a sequence of segments, in order. *)
Definition recognized_lines (segs : list Segment) : list string :=
  List.filter (fun t => negb (String.eqb t "")) (map segment_text segs).

(** Each line followed by a blank line. *)
Fixpoint transcript (lines : list string) : string :=
  match lines with
  | [] => ""
  | line :: rest => (line +:+ blank_line) +:+ transcript rest
  end.

(** What the worker reads of the application object. *)
Definition same_reads (a a' : App) : Prop :=
  worker_files a = worker_files a' /\ total_files a = total_files a'
  /\ output_dir a = output_dir a'.

(** The transcripts [names] of the files of indices [idx .. idx + n - 1]
    have been written below the directory [base], and nothing else of the
    tree [fs] has changed on the way to [fs']. *)
Definition files_written (base : list string) (idx n : nat) (fs fs' : tree)
    (names : list string) : Prop :=
  Forall2 (fun i name => exists secs, name = out_name i (strftime_HMS secs))
    (seq idx n) names
  /\ (forall name, In name names ->
        exists c, fs' !! (base ++ [name]) = Some (File "utf-8" c))
  /\ (forall k x, (forall name, In name names -> k <> base ++ [name]) ->
        fs !! k = Some x -> fs' !! k = Some x)
  /\ (forall k e c, (forall name, In name names -> k <> base ++ [name]) ->
        fs' !! k = Some (File e c) -> fs !! k = Some (File e c)).

(** A computation that, whatever the application object, does the same to
    the world, returns the same and puts the same events on the queue, as
    long as the three fields the worker reads are the same; and that leaves
    every field but the queue as it was. *)
Definition reads_only {A} (m : M St A) : Prop :=
  forall a w, exists r evs w',
    forall a', same_reads a a' -> m (mkSt a' w) = (r, mkSt (emit a' evs) w').

(** The entry [f] is on disk and resolves, to [rs f]. *)
Definition on_disk (p_exists : Path -> bool) (p_resolve : Path -> exc Path)
    (rs : Path -> Path) (f : Path) : Prop :=
  p_exists f = true /\ p_resolve f = Ok (rs f).

(** A sequence of additions: [on_select_files] on each selection in turn. *)
Fixpoint select_many (p_exists : Path -> bool) (p_resolve : Path -> exc Path)
    (selections : list (list string)) : M App unit :=
  match selections with
  | [] => ret tt
  | filepaths :: rest =>
      on_select_files p_exists p_resolve filepaths ;;
      select_many p_exists p_resolve rest
  end.

(** ** A sample world *)

Definition sample_speech : Transcription :=
  mkTranscription
    [mkSegment (Some " hello ") (Some (float_of 85 (-1)));
     mkSegment (Some "  ") None;
     mkSegment None (Some (float_of 50 0));
     mkSegment (Some "world") (Some (float_of 100 0))]
    None (Some (float_of 100 0)).

Definition sample_silence : Transcription :=
  mkTranscription [mkSegment (Some "  ") (Some (float_of 1 0))] None
    (Some (float_of 3 0)).

(** The clock starts at 12:34:56; the engine fails on [/rec/two.mp3], hears
    nothing in [/rec/silence.wav] and two lines in every other file; the disk
    has no fault. *)
Definition sample_env : Env :=
  mkEnv ["home"; "user"] ["home"; "user"]
    (fun t => float_of (Z.of_nat t) 0)
    (fun t => 12 * 3600 + 34 * 60 + 56 + t)
    (fun _ => Ok tt)
    (fun _ path =>
       if String.eqb path "/rec/two.mp3" then Raise (Exception "decoding failed")
       else if String.eqb path "/rec/silence.wav" then Ok sample_silence
       else Ok sample_speech)
    (fun _ => None).

Definition sample_world : World := mkWorld 0 ∅ None.

(** A world where the home directory, which is the working directory,
    exists, with the configuration file in the state [config]. *)
Definition sample_home_world (config : option (exc json)) : World :=
  mkWorld 0 (<[["home"; "user"] := Dir]> (<[["home"] := Dir]> ∅)) config.

Definition sample_files : list Path :=
  [mkPath true ["rec"; "one.mp3"]; mkPath true ["rec"; "two.mp3"];
   mkPath true ["rec"; "three.mp3"]].

(** An idle application with the files [files] staged. *)
Definition sample_idle (files : list Path) : App :=
  mkApp [] files [] (length files) 0 (mkPath true ["out"]) false
    (map path_name files) 0%Z 1 0 true true true.

(** The application once a run on the three sample files has been started,
    and once a run on a file with speech and a silent file has. *)
Definition sample_started : App :=
  fst (on_start_transcription (sample_idle sample_files)).

Definition sample_quiet_files : list Path :=
  [mkPath true ["rec"; "one.mp3"]; mkPath true ["rec"; "silence.wav"]].

Definition sample_quiet_started : App :=
  fst (on_start_transcription (sample_idle sample_quiet_files)).

(** A world with two recordings on disk. *)
Definition sample_rec_world : World :=
  mkWorld 0
    (<[["rec"; "two.mp3"] := File "binary" ""]>
       (<[["rec"; "one.mp3"] := File "binary" ""]> (<[["rec"] := Dir]> ∅)))
    None.

(** [p.resolve()] in the sample world, where it never raises. *)
Definition sample_resolve (p : Path) : Path :=
  mkPath true (locate (env_cwd sample_env) p).

(** The sample world with an engine that leaves the interpreter on
    [/rec/two.mp3]: [sys.exit("bye")] raises [SystemExit]. *)
Definition sample_exit_env : Env :=
  mkEnv (env_home sample_env) (env_cwd sample_env) (env_time sample_env)
    (env_now sample_env) (env_load_model sample_env)
    (fun t path =>
       if String.eqb path "/rec/two.mp3" then Raise (BaseException "bye")
       else env_transcribe sample_env t path)
    (env_fault sample_env).

(** The sample world with a disk that is full at the tick [t0]. *)
Definition sample_full_disk_env (t0 : nat) : Env :=
  mkEnv (env_home sample_env) (env_cwd sample_env) (env_time sample_env)
    (env_now sample_env) (env_load_model sample_env) (env_transcribe sample_env)
    (fun t => if t =? t0 then Some "[Errno 28] No space left on device" else None).

(** The same run with another value in the counter [total_files]. *)
Definition sample_miscounted : App := set_total_files 5 sample_started.

(** The string that the [try] block of [load_output_dir] turns into a path:
    the value under the key when the configuration reads as an object with a
    string there, the empty string when the object has no such key, and
    nothing when there is no file, when reading it raises, when it is no
    object or when the value is no string. *)
Definition config_path_string (c : option (exc json)) : option string :=
  match c with
  | Some (Ok (JDict items)) =>
      match dict_lookup items OUTPUT_DIR_KEY with
      | Some (JStr s) => Some s
      | Some _ => None
      | None => Some ""
      end
  | _ => None
  end.

(** The fallback of [load_output_dir]. *)
Definition load_default (env : Env) : M World Path :=
  path_mkdir env (DEFAULT_DOWNLOADS_DIR env) ;; ret (DEFAULT_DOWNLOADS_DIR env).

(** The entries [added] have come behind those of [a], each with its name in
    the list box, and nothing else has changed but the counter of the staged
    files and the Start button. *)
Definition staged_more (filepaths : list string) (a a' : App) (added : list Path) : Prop :=
  audio_files a' = audio_files a ++ added
  /\ file_listbox a' = file_listbox a ++ map path_name added
  /\ Forall (fun f => supported (lower (path_suffix f)) = true
                      /\ In f (map path_of_str filepaths)) added
  /\ queue a' = queue a /\ worker_files a' = worker_files a
  /\ files_done a' = files_done a /\ output_dir a' = output_dir a
  /\ is_transcribing a' = is_transcribing a.

(** The controls of the idle state, and those of the running state. *)
Definition idle (a : App) : Prop :=
  is_transcribing a = false /\ select_button a = true /\ start_button a = true
  /\ change_output_button a = true.

Definition running (a : App) : Prop :=
  is_transcribing a = true /\ select_button a = false /\ start_button a = false
  /\ change_output_button a = false.

(** A percentage within 0 and 100 in a [segment] event. *)
Definition percent_ok (e : Event) : Prop :=
  match e with
  | SegmentEv _ percent => (0 <= percent <= 100)%Z
  | _ => True
  end.

(** A computation whose events all satisfy [P]. *)
Definition emits (P : Event -> Prop) {A} (m : M St A) : Prop :=
  forall a w, exists r evs w',
    m (mkSt a w) = (r, mkSt (emit a evs) w') /\ Forall P evs.

(** The tree [fs'] has every entry of [fs] whose key is outside [K] as it
    was, and an entry wherever [fs] has one. *)
Definition tree_kept (K : list string -> Prop) (fs fs' : tree) : Prop :=
  (forall k x, ~ K k -> fs !! k = Some x -> fs' !! k = Some x)
  /\ (forall k, is_Some (fs !! k) -> is_Some (fs' !! k)).

(** An operation on the world that leaves the configuration alone and keeps
    the tree, the keys of [K] apart. *)
Definition world_keeps (K : list string -> Prop) {A} (m : M World A) : Prop :=
  forall w, w_config (snd (m w)) = w_config w
            /\ tree_kept K (w_fs w) (w_fs (snd (m w))).

(** The same of a computation on an application object whose output
    directory is [d], which it leaves in place. *)
Definition keeps (d : Path) (K : list string -> Prop) {A} (m : M St A) : Prop :=
  forall a w, output_dir a = d ->
    output_dir (self (snd (m (mkSt a w)))) = d
    /\ w_config (world (snd (m (mkSt a w)))) = w_config w
    /\ tree_kept K (w_fs w) (w_fs (world (snd (m (mkSt a w))))).

(** The keys of the transcripts of the files of index [idx] and above, in
    the directory [base]. *)
Definition transcript_keys (base : list string) (idx : nat) (k : list string) : Prop :=
  exists i secs, idx <= i /\ k = base ++ [out_name i (strftime_HMS secs)].

(** * Properties *)

(** 100.0 is 7036874417766400 * 2^-46. *)
Example f_100_is_100 : f_100 = S754_finite false 7036874417766400 (-46).
Proof. reflexivity. Qed.


(** The arithmetic is that of binary64: 29 / 100 * 100 is
    28.999999999999996, of which [int] makes 28. *)
Example percent_29 :
  percent_of (duration_of (Some (float_of 100 0))) (Some (float_of 29 0)) = Ok 28%Z.
Proof. vm_compute. reflexivity. Qed.

(** ** The percentage of a segment *)

Section Percent.









Lemma segment_event_inv (duration : float) (seg : Segment) (text : string) (p : Z) :
  segment_event duration seg = Ok (Some (SegmentEv text p)) ->
  text = segment_text seg /\ text <> "" /\
  percent_of duration (seg_end seg) = Ok p.
Proof.
  unfold segment_event.
  destruct (String.eqb (segment_text seg) "") eqn:E; [discriminate|].
  destruct (percent_of duration (seg_end seg)) as [q|msg]; [|discriminate].
  intros H. injection H as <- <-.
  apply String.eqb_neq in E. auto.
Qed.

End Percent.



(** C10. A segment with non-empty text whose end time is missing carries the
    percentage 0, also when the duration is positive. *)
Theorem missing_end_percent_zero (duration : float) (seg : Segment) :
  SFltb f_zero duration = true ->
  seg_end seg = None ->
  segment_text seg <> "" ->
  segment_event duration seg = Ok (Some (SegmentEv (segment_text seg) 0%Z)).
Proof.
  intros Hpos Hend Hne. unfold segment_event.
  apply String.eqb_neq in Hne. rewrite Hne.
  unfold percent_of. rewrite Hpos, Hend. reflexivity.
Qed.

Lemma missing_end_percent_zero_witness :
  segment_event (float_of 100 0) (mkSegment (Some "hello") None)
  = Ok (Some (SegmentEv "hello" 0%Z)).
Proof.
  apply (missing_end_percent_zero (float_of 100 0) (mkSegment (Some "hello") None));
    [vm_compute; reflexivity | reflexivity | vm_compute; congruence].
Defined.

(** ** The range of the percentage *)

Section Mantissa.
Local Open Scope Z_scope.

Lemma digits2_pos_bound (m : positive) : Z.pos m < 2 ^ Z.pos (digits2_pos m).
Proof.
  induction m as [m IH|m IH|]; cbn [digits2_pos].
  - rewrite Pos2Z.inj_succ, Z.pow_succ_r by lia. lia.
  - rewrite Pos2Z.inj_succ, Z.pow_succ_r by lia. lia.
  - reflexivity.
Qed.

Lemma shr_1_half (mrs : shr_record) :
  0 <= shr_m mrs -> shr_m (shr_1 mrs) = shr_m mrs / 2.
Proof.
  destruct mrs as [m r s]. cbn [shr_m]. intros Hm.
  rewrite <- Z.div2_div.
  destruct m as [|[p|p|]|p]; try reflexivity. lia.
Qed.

Lemma shr_1_nonpos (mrs : shr_record) : shr_m mrs <= 0 -> shr_m (shr_1 mrs) <= 0.
Proof.
  destruct mrs as [m r s]. cbn [shr_m].
  destruct m as [|[p|p|]|[p|p|]]; cbn; lia.
Qed.

Lemma iter_shr_1 (p : positive) (mrs : shr_record) :
  0 <= shr_m mrs ->
  shr_m (SpecFloat.iter_pos shr_1 p mrs) = shr_m mrs / 2 ^ Z.pos p.
Proof.
  revert mrs. induction p as [p IH|p IH|]; intros mrs Hm; cbn [SpecFloat.iter_pos].
  - assert (H1 : 0 <= shr_m (shr_1 mrs)) by (rewrite shr_1_half by lia; apply Z.div_pos; lia).
    assert (H2 : 0 <= shr_m (SpecFloat.iter_pos shr_1 p (shr_1 mrs)))
      by (rewrite IH by lia; apply Z.div_pos; lia).
    rewrite (IH _ H2), (IH _ H1), shr_1_half by lia.
    rewrite !Z.div_div by lia.
    replace (Z.pos p~1) with (1 + Z.pos p + Z.pos p) by lia.
    rewrite !Z.pow_add_r by lia. f_equal. lia.
  - assert (H2 : 0 <= shr_m (SpecFloat.iter_pos shr_1 p mrs))
      by (rewrite IH by lia; apply Z.div_pos; lia).
    rewrite (IH _ H2), (IH _ Hm).
    rewrite !Z.div_div by lia.
    replace (Z.pos p~0) with (Z.pos p + Z.pos p) by lia.
    rewrite !Z.pow_add_r by lia. reflexivity.
  - rewrite shr_1_half by lia. reflexivity.
Qed.

Lemma iter_shr_1_nonpos (p : positive) (mrs : shr_record) :
  shr_m mrs <= 0 -> shr_m (SpecFloat.iter_pos shr_1 p mrs) <= 0.
Proof.
  revert mrs. induction p as [p IH|p IH|]; intros mrs Hm; cbn [SpecFloat.iter_pos].
  - apply IH, IH, shr_1_nonpos, Hm.
  - apply IH, IH, Hm.
  - apply shr_1_nonpos, Hm.
Qed.

(** The second shift of the rounding leaves a mantissa of at most 53 bits. *)
Lemma shr_fexp_mantissa (mr e : Z) (mrs : shr_record) (e' : Z) (m : positive) :
  shr_fexp prec emax mr e loc_Exact = (mrs, e') ->
  shr_m mrs = Z.pos m ->
  Z.pos m < 2 ^ 53.
Proof.
  unfold shr_fexp, shr, fexp, emin, prec, emax. cbn [shr_record_of_loc].
  set (d := Zdigits2 mr).
  assert (Hd : 0 < mr -> mr < 2 ^ d).
  { subst d. destruct mr as [|p|p]; try lia. intros _. apply digits2_pos_bound. }
  destruct (Z.max (d + e - 53) (3 - 1024 - 53) - e) as [|n|n] eqn:En.
  - intros H. injection H as <- _. cbn [shr_m]. intros ->.
    specialize (Hd eq_refl). apply (Z.lt_le_trans _ _ _ Hd).
    apply Z.pow_le_mono_r; lia.
  - intros H. injection H as <- _. intros Hm.
    destruct (Z_lt_le_dec 0 mr) as [Hpos|Hneg].
    + rewrite iter_shr_1 in Hm by (cbn; lia). cbn [shr_m] in Hm.
      rewrite <- Hm. apply Z.div_lt_upper_bound; [lia|].
      rewrite <- Z.pow_add_r by lia.
      apply (Z.lt_le_trans _ _ _ (Hd Hpos)).
      apply Z.pow_le_mono_r; lia.
    + pose proof (iter_shr_1_nonpos n {| shr_m := mr; shr_r := false; shr_s := false |} Hneg).
      lia.
  - intros H. injection H as <- _. cbn [shr_m]. intros ->.
    specialize (Hd eq_refl). apply (Z.lt_le_trans _ _ _ Hd).
    apply Z.pow_le_mono_r; lia.
Qed.

Lemma binary_round_aux_mantissa (sx : bool) (mx ex : Z) (lx : location)
    (s : bool) (m : positive) (e : Z) :
  binary_round_aux prec emax sx mx ex lx = S754_finite s m e ->
  Z.pos m < 2 ^ 53.
Proof.
  unfold binary_round_aux.
  destruct (shr_fexp prec emax mx ex lx) as [mrs' e'].
  destruct (shr_fexp prec emax _ e' loc_Exact) as [mrs'' e''] eqn:E2.
  destruct (shr_m mrs'') as [|m'|m'] eqn:Em; try discriminate.
  destruct (e'' <=? emax - prec); [|discriminate].
  intros H. injection H as _ <- _.
  exact (shr_fexp_mantissa _ _ _ _ _ E2 Em).
Qed.

(** A finite product has a mantissa of at most 53 bits. *)
Lemma fmul_mantissa (x y : float) (s : bool) (m : positive) (e : Z) :
  fmul x y = S754_finite s m e -> Z.pos m < 2 ^ 53.
Proof.
  unfold fmul, SFmul.
  destruct x as [sx|sx| |sx mx ex], y as [sy|sy| |sy my ey]; try discriminate.
  apply binary_round_aux_mantissa.
Qed.

End Mantissa.

Lemma percent_of_range (duration : float) (seg_end : option float) (p : Z) :
  percent_of duration seg_end = Ok p -> (0 <= p <= 100)%Z.
Proof.
  unfold percent_of.
  destruct (SFltb f_zero duration); [|intros H; injection H as <-; lia].
  destruct seg_end as [e|]; [|intros H; injection H as <-; lia].
  destruct (py_truediv e duration) as [q|msg]; [|discriminate].
  unfold py_max, py_min.
  destruct (SFltb (fmul q f_100) f_zero) eqn:Elo.
  { change (SFltb f_100 f_zero) with false. cbn. intros H. injection H as <-. lia. }
  destruct (SFltb f_100 (fmul q f_100)) eqn:Ehi.
  { vm_compute. intros H. injection H as <-. split; discriminate. }
  destruct (fmul q f_100) as [s|s| |s m ex] eqn:Ex; cbn [py_int]; try discriminate.
  { intros H. injection H as <-. lia. }
  destruct s; [discriminate Elo|].
  intros H. injection H as <-.
  pose proof (fmul_mantissa _ _ _ _ _ Ex) as Hm.
  split; [apply Z.shiftl_nonneg; lia|].
  unfold SFltb, SFcompare, f_100 in Ehi.
  destruct (Z.compare_spec (-46) ex) as [Heq|Hlt|Hgt]; try discriminate Ehi.
  - subst ex. rewrite <- Z.shiftr_opp_r, Z.shiftr_div_pow2 by lia.
    change (PosDef.Pos.compare_cont Eq 7036874417766400 m)
      with (Pos.compare 7036874417766400 m) in Ehi.
    assert (Hle : (Z.pos m <= 7036874417766400)%Z).
    { destruct (7036874417766400 ?= m)%positive eqn:Ec; [| |].
      - apply Pos.compare_eq_iff in Ec. subst m. apply Z.le_refl.
      - discriminate Ehi.
      - apply Pos.compare_gt_iff in Ec. apply Pos2Z.pos_lt_pos in Ec.
        apply Z.lt_le_incl. exact Ec. }
    apply Z.div_le_upper_bound; [reflexivity|].
    exact Hle.
  - rewrite <- Z.shiftr_opp_r, Z.shiftr_div_pow2 by lia.
    apply Z.lt_le_incl, Z.div_lt_upper_bound; [apply Z.pow_pos_nonneg; lia|].
    apply (Z.lt_le_trans _ _ _ Hm).
    apply (Z.le_trans _ (2 ^ 47 * 100)); [vm_compute; discriminate|].
    apply Z.mul_le_mono_nonneg_r; [lia|]. apply Z.pow_le_mono_r; lia.
Qed.

(** X10. The percentage carried by a [segment] event, whatever the duration
    and the end time of the segment, is within 0 and 100. *)
Theorem percent_in_range (duration : float) (seg : Segment) (text : string) (p : Z) :
  segment_event duration seg = Ok (Some (SegmentEv text p)) -> (0 <= p <= 100)%Z.
Proof.
  intros Hev. apply segment_event_inv in Hev as (_ & _ & Hp).
  exact (percent_of_range _ _ _ Hp).
Qed.

Lemma percent_in_range_witness : (0 <= 42 <= 100)%Z.
Proof.
  apply (percent_in_range (float_of 100 0)
           (mkSegment (Some " hello ") (Some (float_of 85 (-1)))) "hello" 42%Z).
  vm_compute. reflexivity.
Defined.

(** ** Running monadic code *)

Lemma emit_nil (a : App) : emit a [] = a.
Proof. destruct a. unfold emit, set_queue. simpl. rewrite app_nil_r. reflexivity. Qed.

Lemma emit_emit (a : App) (e1 e2 : list Event) :
  emit (emit a e1) e2 = emit a (e1 ++ e2).
Proof. unfold emit, set_queue. simpl. rewrite app_assoc. reflexivity. Qed.

Lemma queue_put_emit (ev : Event) (a : App) (w : World) :
  queue_put ev (mkSt a w) = (Ok tt, mkSt (emit a [ev]) w).
Proof. reflexivity. Qed.

Lemma count_ev_app (f : Event -> bool) (l1 l2 : list Event) :
  count_ev f (l1 ++ l2) = count_ev f l1 + count_ev f l2.
Proof. unfold count_ev. rewrite List.filter_app, length_app. reflexivity. Qed.

Lemma started_app (l1 l2 : list Event) : started (l1 ++ l2) = started l1 ++ started l2.
Proof.
  induction l1 as [|e l1 IH]; [reflexivity|].
  destruct e; simpl; rewrite IH; reflexivity.
Qed.

Lemma finished_app (l1 l2 : list Event) :
  finished (l1 ++ l2) = finished l1 ++ finished l2.
Proof.
  induction l1 as [|e l1 IH]; [reflexivity|].
  destruct e; simpl; rewrite IH; reflexivity.
Qed.

Lemma segment_texts_app (l1 l2 : list Event) :
  segment_texts (l1 ++ l2) = segment_texts l1 ++ segment_texts l2.
Proof.
  induction l1 as [|e l1 IH]; [reflexivity|].
  destruct e; simpl; rewrite IH; reflexivity.
Qed.

(** Segment events are neither starts, nor ends, nor errors. *)
Lemma segments_only (evs : list Event) :
  Forall (fun e => is_segment_ev e = true) evs ->
  started evs = [] /\ finished evs = [] /\ count_ev is_error evs = 0
  /\ count_ev is_all_done evs = 0 /\ count_ev is_file_done evs = 0.
Proof.
  induction 1 as [|e evs He _ IH]; [repeat split|].
  destruct e; try discriminate He. exact IH.
Qed.

(** ** The loop over the segments *)

Lemma segments_loop_run (d : float) (segs : list Segment) (lines : list string)
    (a : App) (w : World) :
  exists r evs,
    segments_loop d segs lines (mkSt a w) = (r, mkSt (emit a evs) w)
    /\ Forall (fun e => is_segment_ev e = true) evs
    /\ match r with
       | Ok lines' =>
           lines' = lines ++ recognized_lines segs
           /\ segment_texts evs = recognized_lines segs
       | Raise _ => True
       end.
Proof.
  revert lines a. induction segs as [|seg rest IH]; intros lines a.
  - exists (Ok lines), []. rewrite emit_nil, app_nil_r. simpl. auto.
  - cbn [segments_loop]. unfold bind at 1, lift_exc.
    unfold recognized_lines. cbn [map List.filter].
    unfold segment_event.
    destruct (String.eqb (segment_text seg) "") eqn:Etext; cbn [negb].
    + exact (IH lines a).
    + destruct (percent_of d (seg_end seg)) as [p|msg].
      * unfold bind at 1. rewrite queue_put_emit.
        destruct (IH (lines ++ [segment_text seg]) (emit a [SegmentEv (segment_text seg) p]))
          as (r & evs & Hrun & Hsegs & Hr).
        exists r, (SegmentEv (segment_text seg) p :: evs).
        rewrite Hrun, emit_emit. split; [reflexivity|].
        split; [constructor; [reflexivity|exact Hsegs]|].
        destruct r as [lines'|]; [|exact I].
        destruct Hr as [-> Htexts]. rewrite <- app_assoc. simpl.
        unfold recognized_lines in Htexts. rewrite Htexts. auto.
      * exists (Raise msg), []. rewrite emit_nil. auto.
Qed.

(** ** File names *)

Section Names.

Lemma no_slash_app (s1 s2 : string) :
  no_slash (s1 +:+ s2) = no_slash s1 && no_slash s2.
Proof.
  induction s1 as [|c s1 IH]; [reflexivity|].
  simpl. rewrite IH, andb_assoc. reflexivity.
Qed.

Lemma split_no_slash (s : string) : no_slash s = true -> split_on SLASH s = [s].
Proof.
  induction s as [|c s IH]; [reflexivity|].
  simpl. destruct (Ascii.eqb c SLASH); [discriminate|].
  simpl. intros H. rewrite (IH H). reflexivity.
Qed.

Lemma path_of_plain_name (s : string) :
  no_slash s = true -> kept_component s = true ->
  path_of_str s = mkPath false [s].
Proof.
  intros Hs Hk. unfold path_of_str. rewrite (split_no_slash s Hs).
  simpl. rewrite Hk. f_equal.
  destruct s as [|c s]; [reflexivity|].
  simpl in *. destruct (Ascii.eqb c SLASH); [discriminate|reflexivity].
Qed.

Lemma digit_no_slash (s : string) : all_digits s = true -> no_slash s = true.
Proof.
  induction s as [|c s IH]; [reflexivity|].
  simpl. intros [Hc Hs]%andb_prop. rewrite (IH Hs), andb_true_r.
  destruct (Ascii.eqb c SLASH) eqn:E; [|reflexivity].
  apply Ascii.eqb_eq in E. subst c. discriminate Hc.
Qed.

Lemma all_digits_uint (d : Decimal.uint) :
  all_digits (NilEmpty.string_of_uint d) = true.
Proof. induction d; simpl; auto. Qed.

Lemma all_digits_str_of_nat (n : nat) : all_digits (str_of_nat n) = true.
Proof. apply all_digits_uint. Qed.

Lemma str_of_nat_inj (n m : nat) : str_of_nat n = str_of_nat m -> n = m.
Proof.
  unfold str_of_nat. intros H.
  apply Unsigned.to_uint_inj.
  pose proof (NilEmpty.usu (Nat.to_uint n)) as Hn.
  pose proof (NilEmpty.usu (Nat.to_uint m)) as Hm.
  rewrite H in Hn. congruence.
Qed.

Lemma is_digit_digit_char (n : nat) : is_digit (digit_char n) = true.
Proof.
  unfold is_digit, digit_char.
  assert (Hlt : n mod 10 < 10) by (apply Nat.mod_upper_bound; lia).
  rewrite nat_ascii_embedding by lia.
  apply andb_true_intro. split; apply Nat.leb_le; lia.
Qed.

Lemma all_digits_app (s1 s2 : string) :
  all_digits (s1 +:+ s2) = all_digits s1 && all_digits s2.
Proof.
  induction s1 as [|c s1 IH]; [reflexivity|].
  simpl. rewrite IH, andb_assoc. reflexivity.
Qed.

Lemma all_digits_two (n : nat) : all_digits (two_digits n) = true.
Proof.
  unfold two_digits. cbn [all_digits].
  rewrite !is_digit_digit_char. reflexivity.
Qed.

Lemma length_two_digits (n : nat) : String.length (two_digits n) = 2.
Proof. reflexivity. Qed.

(** The time stamp is six digits. *)
Lemma strftime_HMS_digits (secs : nat) :
  all_digits (strftime_HMS secs) = true /\ String.length (strftime_HMS secs) = 6.
Proof.
  unfold strftime_HMS. rewrite !all_digits_app, !all_digits_two.
  split; reflexivity.
Qed.

(** Two strings of digits that are followed by an underscore in equal
    strings are equal. *)
Lemma digits_before_underscore (a b x y : string) :
  all_digits a = true -> all_digits b = true ->
  a +:+ String "_" x = b +:+ String "_" y -> a = b /\ x = y.
Proof.
  revert b. induction a as [|c a IH]; intros [|c' b] Ha Hb H; simpl in *.
  - injection H as ->. auto.
  - injection H as <- _. apply andb_prop in Hb as [Hb _]. discriminate Hb.
  - injection H as -> _. apply andb_prop in Ha as [Ha _]. discriminate Ha.
  - injection H as -> H.
    apply andb_prop in Ha as [_ Ha]. apply andb_prop in Hb as [_ Hb].
    destruct (IH b Ha Hb H) as [-> ->]. auto.
Qed.

Lemma out_name_inj (i j : nat) (ts ts' : string) :
  out_name i ts = out_name j ts' -> i = j.
Proof.
  unfold out_name. simpl. intros H. injection H as H.
  apply digits_before_underscore in H as [H _];
    auto using all_digits_str_of_nat, str_of_nat_inj.
Qed.

Lemma out_name_plain (idx secs : nat) :
  no_slash (out_name idx (strftime_HMS secs)) = true
  /\ kept_component (out_name idx (strftime_HMS secs)) = true
  /\ out_name idx (strftime_HMS secs) <> "..".
Proof.
  split; [|split; [reflexivity|discriminate]].
  unfold out_name. rewrite !no_slash_app.
  rewrite (digit_no_slash _ (all_digits_str_of_nat idx)).
  rewrite (digit_no_slash _ (proj1 (strftime_HMS_digits secs))).
  reflexivity.
Qed.

Lemma normalize_snoc (acc parts : list string) (name : string) :
  name <> ".." ->
  normalize acc (parts ++ [name]) = normalize acc parts ++ [name].
Proof.
  intros Hne. revert acc. induction parts as [|c r IH]; intros acc; simpl.
  - apply String.eqb_neq in Hne. rewrite Hne. reflexivity.
  - destruct (String.eqb c ".."); apply IH.
Qed.

(** Where the transcript of the file of index [idx] goes. *)
Lemma locate_out_path (cwd : list string) (dir : Path) (idx secs : nat) :
  locate cwd (path_div dir (out_name idx (strftime_HMS secs)))
  = locate cwd dir ++ [out_name idx (strftime_HMS secs)].
Proof.
  destruct (out_name_plain idx secs) as (Hs & Hk & Hne).
  unfold path_div. rewrite (path_of_plain_name _ Hs Hk). simpl.
  unfold locate. simpl. apply normalize_snoc. exact Hne.
Qed.

End Names.

(** ** The file tree *)

Section FileTree.

Lemma append_empty_r (s : string) : s +:+ "" = s.
Proof.
  induction s as [|c s IH]; [reflexivity|].
  change (String c (s +:+ "") = String c s). congruence.
Qed.

Lemma append_assoc (s1 s2 s3 : string) : (s1 +:+ s2) +:+ s3 = s1 +:+ (s2 +:+ s3).
Proof.
  induction s1 as [|c s1 IH]; [reflexivity|].
  change (String c ((s1 +:+ s2) +:+ s3) = String c (s1 +:+ (s2 +:+ s3))).
  congruence.
Qed.

(** Creating directories keeps every entry and adds no file. *)
Lemma mkdir_parents_keeps (name : string) (fs : tree) (done todo : list string)
    (fs' : tree) :
  mkdir_parents name fs done todo = Ok fs' ->
  (forall k x, fs !! k = Some x -> fs' !! k = Some x)
  /\ (forall k e c, fs' !! k = Some (File e c) -> fs !! k = Some (File e c)).
Proof.
  revert fs done. induction todo as [|c r IH]; intros fs done H; simpl in H.
  - injection H as <-. auto.
  - destruct (fs !! (done ++ [c])) as [[|e0 c0]|] eqn:E.
    + exact (IH _ _ H).
    + discriminate H.
    + destruct (IH _ _ H) as [Hkeep Hnew]. split.
      * intros k x Hk. apply Hkeep.
        rewrite lookup_insert_ne; [exact Hk|]. congruence.
      * intros k e c' Hk. specialize (Hnew k e c' Hk).
        destruct (decide (done ++ [c] = k)) as [<-|Hne].
        -- rewrite lookup_insert_eq in Hnew. discriminate Hnew.
        -- rewrite lookup_insert_ne in Hnew by exact Hne. exact Hnew.
Qed.

Lemma mkdir_parents_makes_dir (name : string) (fs : tree) (done todo : list string)
    (fs' : tree) :
  stat fs done = Some Dir ->
  mkdir_parents name fs done todo = Ok fs' ->
  stat fs' (done ++ todo) = Some Dir.
Proof.
  revert fs done. induction todo as [|c r IH]; intros fs done Hd H; simpl in H.
  - injection H as <-. rewrite app_nil_r. exact Hd.
  - assert (Hk : forall g : tree, g !! (done ++ [c]) = Some Dir ->
                  stat g (done ++ [c]) = Some Dir).
    { intros g Hg. destruct done; exact Hg. }
    replace (done ++ c :: r) with ((done ++ [c]) ++ r) by (rewrite <- app_assoc; reflexivity).
    destruct (fs !! (done ++ [c])) as [[|e0 c0]|] eqn:E.
    + apply (IH fs (done ++ [c])); [apply Hk, E|exact H].
    + discriminate H.
    + apply (IH (<[done ++ [c] := Dir]> fs) (done ++ [c])); [|exact H].
      apply Hk, lookup_insert_eq.
Qed.

Lemma open_w_inv (name : string) (fs : tree) (k : list string) (enc : string)
    (fs' : tree) :
  open_w name fs k enc = Ok fs' -> fs' = <[k := File enc ""]> fs.
Proof.
  unfold open_w. destruct k as [|c k]; [discriminate|].
  destruct (stat fs (removelast (c :: k))) as [[|? ?]|]; try discriminate.
  destruct (fs !! (c :: k)) as [[|? ?]|]; try discriminate; congruence.
Qed.

Lemma on_world_run {A} (m : M World A) (a : App) (w : World) :
  on_world m (mkSt a w) = (fst (m w), mkSt a (snd (m w))).
Proof. unfold on_world. simpl. destruct (m w). reflexivity. Qed.

Lemma io_fault_run env (w : World) :
  io_fault env w =
    (match env_fault env (w_tick w) with
     | Some msg => Raise (Exception msg)
     | None => Ok tt
     end,
     set_tick (S (w_tick w)) w).
Proof.
  unfold io_fault, bind, tick. destruct (env_fault env (w_tick w)); reflexivity.
Qed.

Lemma file_write_run env (out : Path) (text : string) (w : World) :
  file_write env out text w =
    match env_fault env (w_tick w) with
    | Some msg => (Raise (Exception msg), set_tick (S (w_tick w)) w)
    | None =>
        (Ok tt, set_fs (append_text (w_fs w) (locate (env_cwd env) out) text)
                  (set_tick (S (w_tick w)) w))
    end.
Proof.
  unfold file_write, bind. rewrite io_fault_run.
  destruct (env_fault env (w_tick w)); reflexivity.
Qed.

Lemma path_mkdir_run env (p : Path) (w : World) :
  path_mkdir env p w =
    match env_fault env (w_tick w) with
    | Some msg => (Raise (Exception msg), set_tick (S (w_tick w)) w)
    | None =>
        match mkdir_parents (path_str p) (w_fs w) [] (locate (env_cwd env) p) with
        | Ok fs' => (Ok tt, set_fs fs' (set_tick (S (w_tick w)) w))
        | Raise e => (Raise e, set_tick (S (w_tick w)) w)
        end
    end.
Proof.
  unfold path_mkdir, bind. rewrite io_fault_run.
  destruct (env_fault env (w_tick w)); [reflexivity|].
  cbn. destruct (mkdir_parents _ _ _); reflexivity.
Qed.

Lemma path_open_w_run env (p : Path) (enc : string) (w : World) :
  path_open_w env p enc w =
    match env_fault env (w_tick w) with
    | Some msg => (Raise (Exception msg), set_tick (S (w_tick w)) w)
    | None =>
        match open_w (path_str p) (w_fs w) (locate (env_cwd env) p) enc with
        | Ok fs' => (Ok tt, set_fs fs' (set_tick (S (w_tick w)) w))
        | Raise e => (Raise e, set_tick (S (w_tick w)) w)
        end
    end.
Proof.
  unfold path_open_w, bind. rewrite io_fault_run.
  destruct (env_fault env (w_tick w)); [reflexivity|].
  cbn. destruct (open_w _ _ _); reflexivity.
Qed.

Lemma write_lines_run env (out : Path) (lines : list string) (a : App) (w : World) :
  exists r w',
    write_lines env out lines (mkSt a w) = (r, mkSt a w')
    /\ w_config w' = w_config w
    /\ match r with
       | Ok _ =>
           forall enc c,
             w_fs w !! locate (env_cwd env) out = Some (File enc c) ->
             w_fs w' = <[locate (env_cwd env) out := File enc (c +:+ transcript lines)]> (w_fs w)
       | Raise _ => True
       end.
Proof.
  revert w. induction lines as [|line rest IH]; intros w.
  - exists (Ok tt), w. split; [reflexivity|]. split; [reflexivity|].
    intros enc c Hk. cbn [transcript]. rewrite append_empty_r.
    symmetry. apply insert_id. exact Hk.
  - cbn [write_lines]. unfold bind at 1.
    rewrite on_world_run, file_write_run.
    destruct (env_fault env (w_tick w)) as [msg|] eqn:Ef; cbn [fst snd].
    + eexists (Raise (Exception msg)), _. split; [reflexivity|]. split; [reflexivity|exact I].
    + match goal with |- context [write_lines env out rest (mkSt a ?w1)] =>
        destruct (IH w1) as (r & w' & Hrun & Hcfg & Hr) end.
      exists r, w'. split; [exact Hrun|]. split; [exact Hcfg|].
      destruct r as [[]|]; [|exact I].
      intros enc c Hk. cbn in Hr. unfold append_text in Hr. rewrite Hk in Hr.
      rewrite (Hr enc (c +:+ line +:+ blank_line)) by apply lookup_insert_eq.
      rewrite insert_insert_eq. cbn [transcript].
      rewrite append_assoc. reflexivity.
Qed.

End FileTree.

(** ** The worker on one file *)

(** What the body of the loop does, exception or not. *)
Lemma transcribe_file_run env (idx : nat) (p : Path) (a : App) (w : World) :
  exists r evs w',
    transcribe_file env idx p (mkSt a w)
    = (r, mkSt (emit a (FileStart idx (total_files a) (path_name p) :: evs)) w')
    /\ w_config w' = w_config w
    /\ match r with
       | Raise _ => Forall (fun e => is_segment_ev e = true) evs
       | Ok _ =>
           exists tr secs t segs elapsed,
             env_transcribe env t (path_str p) = Ok tr
             /\ tr_fail tr = None
             /\ evs = segs ++ [FileDone idx (total_files a) (path_name p)
                                 (path_str (path_div (output_dir a)
                                              (out_name idx (strftime_HMS secs))))
                                 elapsed]
             /\ Forall (fun e => is_segment_ev e = true) segs
             /\ segment_texts segs = recognized_lines (tr_segments tr)
             /\ (let k := locate (env_cwd env) (output_dir a)
                          ++ [out_name idx (strftime_HMS secs)] in
                 w_fs w' !! k
                 = Some (File "utf-8" (transcript (recognized_lines (tr_segments tr))))
                 /\ (forall k' x, k' <> k -> w_fs w !! k' = Some x -> w_fs w' !! k' = Some x)
                 /\ (forall k' e c, k' <> k -> w_fs w' !! k' = Some (File e c) ->
                                    w_fs w !! k' = Some (File e c))
                 /\ stat (w_fs w') (locate (env_cwd env) (output_dir a)) = Some Dir)
       end.
Proof.
  unfold transcribe_file.
  unfold bind at 1. rewrite on_world_run. cbn [fst snd time_time bind tick ret].
  unfold bind at 1. cbn [gets self].
  unfold bind at 1. rewrite queue_put_emit.
  unfold bind at 1. rewrite on_world_run.
  unfold model_transcribe. cbn [bind tick fst snd w_tick set_tick lift_exc].
  destruct (env_transcribe env (S (w_tick w)) (path_str p)) as [tr|msg] eqn:Etr.
  2: { eexists (Raise _), [], _. split; [reflexivity|]. split; [reflexivity|constructor]. }
  unfold bind at 1.
  match goal with |- context [segments_loop ?d ?sg [] (mkSt ?a1 ?w1)] =>
    destruct (segments_loop_run d sg [] a1 w1) as (rl & segs & Hrun & Hsegs & Hr);
    rewrite Hrun; clear Hrun end.
  rewrite emit_emit. cbn [app].
  destruct rl as [lines|msg].
  2: { eexists (Raise _), segs, _. split; [reflexivity|]. split; [reflexivity|exact Hsegs]. }
  destruct Hr as [Hlines Htexts]. cbn [app] in Hlines. subst lines.
  unfold bind at 1.
  destruct (tr_fail tr) as [msg|] eqn:Efail.
  { eexists (Raise _), segs, _. split; [reflexivity|]. split; [reflexivity|exact Hsegs]. }
  cbn [ret].
  unfold bind at 1. rewrite on_world_run.
  unfold now_HMS. cbn [bind tick fst snd w_tick set_tick ret].
  unfold bind at 1. cbn [gets self output_dir emit set_queue].
  unfold bind at 1. cbn [gets self output_dir emit set_queue].
  set (secs := env_now env (S (S (w_tick w)))).
  set (out := path_div (output_dir a) (out_name idx (strftime_HMS secs))).
  set (a1 := emit a (FileStart idx (total_files a) (path_name p) :: segs)).
  match goal with |- context [mkSt a1 ?w0] => set (w3 := w0) end.
  assert (Hfs3 : w_fs w3 = w_fs w) by reflexivity.
  assert (Hcfg3 : w_config w3 = w_config w) by reflexivity.
  clearbody w3.
  (* mkdir *)
  unfold bind at 1. rewrite on_world_run, path_mkdir_run.
  destruct (env_fault env (w_tick w3)) as [msg|] eqn:Ef1.
  { eexists (Raise _), segs, _. split; [reflexivity|]. split; [exact Hcfg3|exact Hsegs]. }
  destruct (mkdir_parents (path_str (output_dir a)) (w_fs w3) []
              (locate (env_cwd env) (output_dir a)))
    as [fs1|msg] eqn:Emk.
  2: { eexists (Raise _), segs, _. split; [reflexivity|]. split; [exact Hcfg3|exact Hsegs]. }
  cbn [fst snd].
  (* open *)
  unfold bind at 1. rewrite on_world_run, path_open_w_run.
  cbn [w_tick set_tick set_fs w_fs].
  destruct (env_fault env (S (w_tick w3))) as [msg|] eqn:Ef2.
  { eexists (Raise _), segs, _. split; [reflexivity|]. split; [exact Hcfg3|exact Hsegs]. }
  destruct (open_w (path_str out) fs1 (locate (env_cwd env) out) "utf-8")
    as [fs2|msg] eqn:Eop.
  2: { eexists (Raise _), segs, _. split; [reflexivity|]. split; [exact Hcfg3|exact Hsegs]. }
  cbn [fst snd].
  (* write *)
  unfold bind at 1.
  match goal with |- context [write_lines env out ?ls (mkSt a1 ?w0)] =>
    destruct (write_lines_run env out ls a1 w0) as (rw & w4 & Hrun & Hcfg4 & Hw);
    rewrite Hrun; clear Hrun end.
  cbn [w_config set_fs set_tick] in Hcfg4. rewrite Hcfg3 in Hcfg4.
  destruct rw as [[]|msg].
  2: { eexists (Raise _), segs, _. split; [reflexivity|]. split; [exact Hcfg4|exact Hsegs]. }
  (* close *)
  unfold bind at 1. rewrite on_world_run. unfold file_close. rewrite io_fault_run.
  destruct (env_fault env (w_tick w4)) as [msg|] eqn:Ef3; cbn [fst snd].
  { eexists (Raise _), segs, _. split; [reflexivity|]. split; [exact Hcfg4|exact Hsegs]. }
  unfold bind at 1. rewrite on_world_run. cbn [fst snd time_time bind tick ret].
  unfold bind at 1. cbn [gets self].
  rewrite queue_put_emit. subst a1. rewrite emit_emit. cbn [app].
  eexists (Ok tt), _, _. split; [reflexivity|]. split; [exact Hcfg4|].
  exists tr, secs, (S (w_tick w)), segs. eexists.
  split; [exact Etr|]. split; [exact Efail|].
  split; [reflexivity|]. split; [exact Hsegs|]. split; [exact Htexts|].
  cbn zeta. cbn [w_fs set_tick].
  apply open_w_inv in Eop. subst fs2.
  unfold out in *. rewrite locate_out_path in *.
  cbn [w_fs set_fs set_tick] in Hw.
  rewrite (Hw "utf-8" "") by apply lookup_insert_eq.
  rewrite insert_insert_eq. rewrite Hfs3 in Emk.
  destruct (mkdir_parents_keeps _ _ _ _ _ Emk) as [Hkeep Hnew].
  split; [apply lookup_insert_eq|]. split; [|split].
  - intros k' x Hne Hk. rewrite lookup_insert_ne by congruence. apply Hkeep, Hk.
  - intros k' e c Hne Hk. rewrite lookup_insert_ne in Hk by congruence.
    apply Hnew in Hk. exact Hk.
  - pose proof (mkdir_parents_makes_dir _ _ [] _ _ eq_refl Emk) as Hdir.
    cbn [app] in Hdir.
    destruct (locate (env_cwd env) (output_dir a)) as [|c0 base] eqn:Ebase;
      [reflexivity|].
    cbn [stat] in *. rewrite lookup_insert_ne; [exact Hdir|].
    intros Heq. apply (f_equal (@length string)) in Heq.
    rewrite length_app in Heq. cbn in Heq. lia.
Qed.

(** ** The loop over the snapshot *)

Lemma count_ev_cons (f : Event -> bool) (e : Event) (l : list Event) :
  count_ev f (e :: l) = (if f e then 1 else 0) + count_ev f l.
Proof. unfold count_ev. simpl. destruct (f e); reflexivity. Qed.

Lemma written_names_fresh (i n : nat) (names : list string) (j : nat) (ts : string) :
  Forall2 (fun i name => exists secs, name = out_name i (strftime_HMS secs))
    (seq i n) names ->
  j < i -> ~ In (out_name j ts) names.
Proof.
  revert i names. induction n as [|n IH]; intros i names H Hlt; simpl in H.
  - inversion H. intros [].
  - inversion H as [|? name ? rest [secs Hname] Hrest]; subst.
    intros [Heq|Hin].
    + apply out_name_inj in Heq. lia.
    + apply (IH (S i) rest Hrest); [lia|exact Hin].
Qed.

Lemma written_names_NoDup (i n : nat) (names : list string) :
  Forall2 (fun i name => exists secs, name = out_name i (strftime_HMS secs))
    (seq i n) names ->
  List.NoDup names /\ length names = n.
Proof.
  revert i names. induction n as [|n IH]; intros i names H; simpl in H.
  - inversion H. split; [constructor|reflexivity].
  - inversion H as [|? name ? rest [secs Hname] Hrest]; subst.
    destruct (IH _ _ Hrest) as [Hnd Hlen]. split; [|simpl; congruence].
    constructor; [|exact Hnd].
    apply (written_names_fresh (S i) n rest i _ Hrest). lia.
Qed.

Lemma for_files_run env (files : list Path) (idx : nat) (a : App) (w : World) :
  exists r evs w',
    for_files env idx files (mkSt a w) = (r, mkSt (emit a evs) w')
    /\ w_config w' = w_config w
    /\ count_ev is_error evs = 0 /\ count_ev is_all_done evs = 0
    /\ count_ev is_file_done evs = length (finished evs)
    /\ match r with
       | Ok _ =>
           started evs = seq idx (length files)
           /\ finished evs = seq idx (length files)
           /\ exists names,
               files_written (locate (env_cwd env) (output_dir a)) idx
                 (length files) (w_fs w) (w_fs w') names
       | Raise _ =>
           exists j, j < length files
                     /\ started evs = seq idx (S j) /\ finished evs = seq idx j
       end.
Proof.
  revert idx a w. induction files as [|f rest IH]; intros idx a w.
  - exists (Ok tt), [], w. rewrite emit_nil.
    repeat split; try reflexivity.
    exists []. repeat split; try constructor; auto.
    intros name [].
  - cbn [for_files]. unfold bind at 1.
    destruct (transcribe_file_run env idx f a w) as (r1 & evs1 & w1 & Hrun1 & Hcfg1 & Hr1).
    rewrite Hrun1. clear Hrun1.
    destruct r1 as [[]|msg].
    + destruct Hr1 as (tr & secs & t & segs & el & _ & _ & -> & Hsegs & _ & Hfile & Hkeep & Hnew & _).
      destruct (segments_only segs Hsegs) as (Hs1 & Hs2 & Hs3 & Hs4 & Hs5).
      match goal with |- context [for_files env (S idx) rest (mkSt ?a1 w1)] =>
        destruct (IH (S idx) a1 w1) as (r2 & evs2 & w2 & Hrun2 & Hcfg2 & He2 & Ha2 & Hd2 & Hr2);
        rewrite Hrun2; clear Hrun2 end.
      rewrite emit_emit. eexists r2, _, w2.
      split; [reflexivity|]. split; [congruence|].
      cbn [app].
      rewrite !count_ev_cons, !count_ev_app, !count_ev_cons.
      cbn [started finished]. rewrite !started_app, !finished_app, Hs1, Hs2.
      cbn [started finished app is_error is_all_done is_file_done length].
      rewrite Hs3, Hs4, Hs5, He2, Ha2, Hd2.
      split; [reflexivity|]. split; [reflexivity|]. split; [simpl; lia|].
      destruct r2 as [[]|msg].
      * destruct Hr2 as (Hst & Hfi & names & HF2 & Hex & Hkeep2 & Hnew2).
        cbn [output_dir emit set_queue] in *.
        rewrite Hst, Hfi. split; [reflexivity|]. split; [reflexivity|].
        set (base := locate (env_cwd env) (output_dir a)) in *.
        set (name1 := out_name idx (strftime_HMS secs)) in *.
        assert (Hfresh : ~ In name1 names).
        { apply (written_names_fresh (S idx) (length rest) names idx _ HF2). lia. }
        assert (Hinj : forall n1 n2 : string, base ++ [n1] = base ++ [n2] -> n1 = n2).
        { intros n1 n2 Heq. apply app_inv_head in Heq. congruence. }
        exists (name1 :: names). split; [|split; [|split]].
        -- constructor; [exists secs; reflexivity|exact HF2].
        -- intros name [<-|Hin].
           ++ eexists. apply Hkeep2; [|exact Hfile].
              intros n2 Hin2 Heq. apply Hinj in Heq. congruence.
           ++ apply Hex, Hin.
        -- intros k x Hk Hx. apply Hkeep2.
           ++ intros n2 Hin2. apply Hk. right. exact Hin2.
           ++ apply Hkeep; [|exact Hx]. apply Hk. left. reflexivity.
        -- intros k e c Hk Hx. apply Hnew.
           ++ apply Hk. left. reflexivity.
           ++ apply Hnew2; [|exact Hx]. intros n2 Hin2. apply Hk. right. exact Hin2.
      * destruct Hr2 as (j & Hj & Hst & Hfi). exists (S j).
        rewrite Hst, Hfi. split; [simpl; lia|]. split; reflexivity.
    + destruct (segments_only evs1 Hr1) as (Hs1 & Hs2 & Hs3 & Hs4 & Hs5).
      exists (Raise msg), (FileStart idx (total_files a) (path_name f) :: evs1), w1.
      split; [reflexivity|]. split; [exact Hcfg1|].
      rewrite !count_ev_cons. cbn [started finished is_error is_all_done is_file_done].
      rewrite Hs1, Hs2, Hs3, Hs4, Hs5.
      split; [reflexivity|]. split; [reflexivity|]. split; [reflexivity|].
      exists 0. split; [simpl; lia|]. split; reflexivity.
Qed.

(** ** The whole run *)

Lemma worker_setup_run env (a : App) (w : World) :
  exists r evs w',
    worker_setup env (mkSt a w) = (r, mkSt (emit a evs) w')
    /\ w_config w' = w_config w /\ w_fs w' = w_fs w
    /\ started evs = [] /\ finished evs = []
    /\ count_ev is_error evs = 0 /\ count_ev is_all_done evs = 0
    /\ count_ev is_file_done evs = 0.
Proof.
  unfold worker_setup.
  unfold bind at 1. rewrite on_world_run. cbn [fst snd time_time bind tick ret].
  unfold bind at 1. rewrite queue_put_emit.
  unfold bind at 1. rewrite on_world_run.
  unfold load_model. cbn [bind tick fst snd w_tick set_tick lift_exc].
  destruct (env_load_model env (S (w_tick w))) as [[]|msg]; cbn [fst snd].
  - unfold bind at 1. rewrite queue_put_emit, emit_emit. cbn [ret].
    eexists (Ok _), _, _. split; [reflexivity|]. repeat split.
  - eexists (Raise msg), _, _. split; [reflexivity|]. repeat split.
Qed.

Lemma worker_body_run env (a : App) (w : World) :
  exists r evs w',
    worker_body env (mkSt a w) = (r, mkSt (emit a evs) w')
    /\ w_config w' = w_config w
    /\ count_ev is_error evs = 0
    /\ count_ev is_file_done evs = length (finished evs)
    /\ match r with
       | Ok _ =>
           started evs = seq 1 (length (worker_files a))
           /\ finished evs = seq 1 (length (worker_files a))
           /\ (exists pre t, evs = pre ++ [AllDone t] /\ count_ev is_all_done pre = 0
                             /\ finished pre = finished evs)
           /\ exists names,
               files_written (locate (env_cwd env) (output_dir a)) 1
                 (length (worker_files a)) (w_fs w) (w_fs w') names
       | Raise _ =>
           count_ev is_all_done evs = 0
           /\ exists k, k <= length (worker_files a)
                        /\ started evs = seq 1 k /\ finished evs = seq 1 (k - 1)
       end.
Proof.
  unfold worker_body. unfold bind at 1.
  destruct (worker_setup_run env a w)
    as (r0 & evs0 & w0 & Hrun0 & Hcfg0 & Hfs0 & Hst0 & Hfi0 & He0 & Ha0 & Hd0).
  rewrite Hrun0. clear Hrun0.
  destruct r0 as [start_time|msg].
  2: { exists (Raise msg), evs0, w0. split; [reflexivity|]. split; [exact Hcfg0|].
       rewrite He0, Hd0, Hfi0, Ha0. repeat split.
       exists 0. split; [lia|]. rewrite Hst0. split; reflexivity. }
  unfold bind at 1. cbn [gets self worker_files emit set_queue].
  unfold bind at 1.
  match goal with |- context [for_files env 1 ?fl (mkSt ?a1 w0)] =>
    destruct (for_files_run env fl 1 a1 w0)
      as (r1 & evs1 & w1 & Hrun1 & Hcfg1 & He1 & Ha1 & Hd1 & Hr1);
    rewrite Hrun1; clear Hrun1 end.
  rewrite emit_emit.
  destruct r1 as [[]|msg].
  - destruct Hr1 as (Hst1 & Hfi1 & names & Hnames).
    unfold bind at 1. rewrite on_world_run. cbn [fst snd time_time bind tick ret].
    rewrite queue_put_emit, emit_emit.
    eexists (Ok tt), _, _. split; [reflexivity|].
    cbn [w_config set_tick w_fs]. split; [congruence|].
    rewrite !count_ev_app, !started_app, !finished_app.
    rewrite Hst0, Hfi0, He0, Hd0, Hst1, Hfi1, He1, Hd1.
    cbn [output_dir emit set_queue] in Hnames. rewrite Hfs0 in Hnames.
    split; [reflexivity|]. split; [rewrite Hfi1, length_app; reflexivity|].
    split; [cbn; rewrite app_nil_r; reflexivity|].
    split; [cbn; rewrite app_nil_r; reflexivity|].
    split; [|exists names; exact Hnames].
    eexists (evs0 ++ evs1), _. split; [reflexivity|].
    rewrite count_ev_app, finished_app, Ha0, Ha1, Hfi0, Hfi1.
    split; [reflexivity|]. cbn. rewrite app_nil_r. reflexivity.
  - destruct Hr1 as (j & Hj & Hst1 & Hfi1).
    exists (Raise msg), (evs0 ++ evs1), w1. split; [reflexivity|].
    split; [congruence|].
    rewrite !count_ev_app, !started_app, !finished_app.
    rewrite Hst0, Hfi0, He0, Hd0, Hst1, Hfi1, He1, Hd1, Ha0, Ha1.
    split; [reflexivity|]. split; [rewrite Hfi1; reflexivity|].
    split; [reflexivity|].
    exists (S j). split; [lia|]. replace (S j - 1) with j by lia.
    split; reflexivity.
Qed.

(** ** The transcript of one file *)

(** C4. Every input file processed without error leaves exactly one
    plain-text UTF-8 file, named [Call<index>_<HHMMSS>.txt], in the configured
    output directory; its content is each non-empty recognized line followed
    by a blank line, in the order of the segments. *)
Theorem transcript_written env (idx : nat) (audio_path : Path) (st st' : St) :
  transcribe_file env idx audio_path st = (Ok tt, st') ->
  exists tr t h m s,
    env_transcribe env t (path_str audio_path) = Ok tr
    /\ h < 24 /\ m < 60 /\ s < 60
    /\ let name := "Call" +:+ str_of_nat idx +:+ "_"
                   +:+ (two_digits h +:+ two_digits m +:+ two_digits s)
                   +:+ ".txt" in
       let k := locate (env_cwd env) (output_dir (self st)) ++ [name] in
       locate (env_cwd env) (path_div (output_dir (self st)) name) = k
       /\ w_fs (world st') !! k
          = Some (File "utf-8" (transcript (recognized_lines (tr_segments tr))))
       /\ (forall k' e c, k' <> k ->
             (w_fs (world st') !! k' = Some (File e c)
              <-> w_fs (world st) !! k' = Some (File e c))).
Proof.
  destruct st as [a w]. intros Hrun.
  destruct (transcribe_file_run env idx audio_path a w)
    as (r & evs & w' & Hrun' & _ & Hr).
  rewrite Hrun in Hrun'. injection Hrun' as <- ->.
  destruct Hr as (tr & secs & t & segs & el & Htr & _ & _ & _ & _ & Hfile & Hkeep & Hnew & _).
  exists tr, t, ((secs / 3600) mod 24), ((secs / 60) mod 60), (secs mod 60).
  split; [exact Htr|].
  split; [apply Nat.mod_upper_bound; lia|].
  split; [apply Nat.mod_upper_bound; lia|].
  split; [apply Nat.mod_upper_bound; lia|].
  cbn zeta. cbn [self world].
  change ("Call" +:+ str_of_nat idx +:+ "_"
          +:+ (two_digits ((secs / 3600) mod 24) +:+ two_digits ((secs / 60) mod 60)
               +:+ two_digits (secs mod 60)) +:+ ".txt")
    with (out_name idx (strftime_HMS secs)).
  split; [apply locate_out_path|]. split; [exact Hfile|].
  intros k' e c Hne. split; [apply Hnew, Hne|apply Hkeep, Hne].
Qed.

(** C8. A file whose transcription yields no non-empty segment still gets
    its transcript, and the transcript is empty. *)
Theorem empty_transcript_created env (idx : nat) (audio_path : Path) (st st' : St) :
  transcribe_file env idx audio_path st = (Ok tt, st') ->
  (forall t tr, env_transcribe env t (path_str audio_path) = Ok tr ->
                recognized_lines (tr_segments tr) = []) ->
  exists secs evs,
    w_fs (world st')
    !! (locate (env_cwd env) (output_dir (self st))
        ++ [out_name idx (strftime_HMS secs)])
    = Some (File "utf-8" "")
    /\ self st' = emit (self st) evs
    /\ count_ev is_segment_ev evs = 0.
Proof.
  destruct st as [a w]. intros Hrun Hblank.
  destruct (transcribe_file_run env idx audio_path a w)
    as (r & evs & w' & Hrun' & _ & Hr).
  rewrite Hrun in Hrun'. injection Hrun' as <- ->.
  destruct Hr as (tr & secs & t & segs & el & Htr & _ & -> & _ & Htexts & Hfile & _).
  rewrite (Hblank t tr Htr) in Hfile, Htexts.
  exists secs. eexists. split; [exact Hfile|]. split; [reflexivity|].
  rewrite count_ev_cons, count_ev_app, count_ev_cons. cbn [is_segment_ev count_ev length List.filter].
  assert (Hnone : count_ev is_segment_ev segs = 0).
  { clear -Htexts. induction segs as [|e segs IH]; [reflexivity|].
    rewrite count_ev_cons. destruct e; simpl in *; try (apply IH, Htexts).
    discriminate Htexts. }
  fold (count_ev is_segment_ev segs). rewrite Hnone. reflexivity.
Qed.

(** ** The counters of a run *)

Lemma handle_message_counters (msg : Event) (a : App) :
  files_done (handle_message msg a)
  = files_done a + (if is_file_done msg then 1 else 0)
  /\ total_files (handle_message msg a) = total_files a.
Proof. destruct msg; simpl; split; lia. Qed.

Lemma handle_all_counters (msgs : list Event) (a : App) :
  files_done (handle_all msgs a) = files_done a + count_ev is_file_done msgs
  /\ total_files (handle_all msgs a) = total_files a.
Proof.
  revert a. induction msgs as [|msg msgs IH]; intros a.
  - simpl. unfold count_ev. simpl. split; lia.
  - unfold handle_all. cbn [fold_left]. fold (handle_all msgs (handle_message msg a)).
    destruct (IH (handle_message msg a)) as [-> ->].
    destruct (handle_message_counters msg a) as [-> ->].
    rewrite count_ev_cons. split; lia.
Qed.

Lemma count_ev_firstn (f : Event -> bool) (n : nat) (l : list Event) :
  count_ev f (firstn n l) <= count_ev f l.
Proof.
  revert n. induction l as [|e l IH]; intros [|n]; simpl; try (unfold count_ev; simpl; lia).
  rewrite !count_ev_cons. specialize (IH n). lia.
Qed.

Lemma on_start_snapshot (a0 a1 : App) :
  on_start_transcription a0 = (a1, true) ->
  worker_files a1 = audio_files a0 /\ audio_files a0 <> []
  /\ total_files a1 = length (worker_files a1) /\ files_done a1 = 0
  /\ is_transcribing a1 = true /\ audio_files a1 = []
  /\ output_dir a1 = output_dir a0 /\ queue a1 = queue a0.
Proof.
  unfold on_start_transcription.
  destruct (is_transcribing a0); [intros H; discriminate H|].
  destruct (audio_files a0) as [|f fs] eqn:E; [intros H; discriminate H|].
  intros H. injection H as <-. simpl. repeat split. discriminate.
Qed.

Lemma worker_transcribe_all_run env (a : App) (w : World) :
  exists r evs w',
    worker_body env (mkSt a w) = (r, mkSt (emit a evs) w')
    /\ worker_transcribe_all env (mkSt a w)
       = (uncaught r, mkSt (emit a (evs ++ error_events r)) w').
Proof.
  destruct (worker_body_run env a w) as (r & evs & w' & Hrun & _).
  exists r, evs, w'. split; [exact Hrun|].
  unfold worker_transcribe_all, try_except. rewrite Hrun.
  destruct r as [[]|[msg|msg]]; cbn [error_events uncaught].
  - rewrite app_nil_r. reflexivity.
  - rewrite queue_put_emit, emit_emit. reflexivity.
  - rewrite app_nil_r. reflexivity.
Qed.

Lemma error_events_count (r : exc unit) :
  finished (error_events r) = [] /\ started (error_events r) = []
  /\ count_ev is_file_done (error_events r) = 0
  /\ count_ev is_all_done (error_events r) = 0
  /\ count_ev is_error (error_events r)
     = match r with Raise (Exception _) => 1 | _ => 0 end.
Proof. destruct r as [[]|[msg|msg]]; repeat split. Qed.

(** C3. In a run that completes without error, [files_done] equals the
    length of the run snapshot when the [all_done] event is processed, and
    each input file of the snapshot has produced exactly one transcript:
    the transcripts are as many as the inputs, pairwise distinct, all on
    disk, and no other file has appeared. *)
Theorem run_completes env (a0 a1 : App) (w : World) (st' : St) :
  on_start_transcription a0 = (a1, true) ->
  worker_body env (mkSt a1 w) = (Ok tt, st') ->
  exists pre t names,
    worker_transcribe_all env (mkSt a1 w) = (Ok tt, st')
    /\ self st' = emit a1 (pre ++ [AllDone t])
    /\ count_ev is_all_done pre = 0 /\ count_ev is_error pre = 0
    /\ worker_files a1 = audio_files a0
    /\ files_done (handle_all pre a1) = length (worker_files a1)
    /\ files_done (handle_all (pre ++ [AllDone t]) a1) = length (worker_files a1)
    /\ length names = length (worker_files a1) /\ List.NoDup names
    /\ files_written (locate (env_cwd env) (output_dir a1)) 1
         (length (worker_files a1)) (w_fs w) (w_fs (world st')) names.
Proof.
  intros Hstart Hbody.
  destruct (on_start_snapshot a0 a1 Hstart) as (Hsnap & _ & _ & Hdone & _).
  destruct (worker_body_run env a1 w) as (r & evs & w' & Hrun & _ & He & Hd & Hr).
  rewrite Hbody in Hrun. injection Hrun as <- ->.
  destruct Hr as (Hst & Hfi & (pre & t & -> & Ha & Hfp) & names & Hnames).
  exists pre, t, names.
  split. { unfold worker_transcribe_all, try_except. rewrite Hbody. reflexivity. }
  split; [reflexivity|]. split; [exact Ha|].
  rewrite count_ev_app in He, Hd.
  split; [lia|]. split; [exact Hsnap|].
  destruct (handle_all_counters pre a1) as [Hc _].
  destruct (handle_all_counters (pre ++ [AllDone t]) a1) as [Hc' _].
  rewrite Hc, Hc', count_ev_app, Hdone.
  assert (Hn : count_ev is_file_done pre = length (worker_files a1)).
  { rewrite Hfi, length_seq in Hd. cbn in Hd. lia. }
  rewrite Hn. cbn [self world].
  split; [reflexivity|]. split; [cbn; lia|].
  destruct Hnames as [HF2 Hrest].
  destruct (written_names_NoDup _ _ _ HF2) as [Hnd Hlen].
  split; [exact Hlen|]. split; [exact Hnd|]. split; [exact HF2|exact Hrest].
Qed.

(** C6. Within a run [files_done] never exceeds [total_files]: the start of
    the run resets [files_done] to 0 and [total_files] to the length of the
    snapshot, only a [file_done] event increments [files_done], and the worker
    emits at most one [file_done] event per element of the snapshot. *)
Theorem files_done_bounded env (a0 a1 : App) (w : World) :
  on_start_transcription a0 = (a1, true) ->
  files_done a1 = 0 /\ total_files a1 = length (worker_files a1)
  /\ (forall msg a,
        files_done (handle_message msg a)
        = files_done a + (if is_file_done msg then 1 else 0)
        /\ total_files (handle_message msg a) = total_files a)
  /\ exists r evs w',
       worker_transcribe_all env (mkSt a1 w) = (r, mkSt (emit a1 evs) w')
       /\ count_ev is_file_done evs = length (finished evs)
       /\ List.NoDup (finished evs)
       /\ (forall i, In i (finished evs) -> 1 <= i <= length (worker_files a1))
       /\ forall n,
            files_done (handle_all (firstn n evs) a1)
            <= total_files (handle_all (firstn n evs) a1).
Proof.
  intros Hstart.
  destruct (on_start_snapshot a0 a1 Hstart) as (_ & _ & Htotal & Hdone & _).
  split; [exact Hdone|]. split; [exact Htotal|].
  split; [exact handle_message_counters|].
  destruct (worker_transcribe_all_run env a1 w) as (r & evs & w' & Hbody & Hall).
  destruct (worker_body_run env a1 w) as (r' & evs' & w'' & Hrun & _ & He & Hd & Hr).
  rewrite Hbody in Hrun. injection Hrun as <- Hemit <-.
  apply app_inv_head in Hemit. subst evs'.
  eexists _, _, w'. split; [exact Hall|].
  assert (Hfin : exists k, k <= length (worker_files a1) /\ finished evs = seq 1 k).
  { destruct r as [[]|e].
    - destruct Hr as (_ & Hfi & _). eexists. split; [|exact Hfi]. lia.
    - destruct Hr as (_ & k & Hk & _ & Hfi). exists (k - 1). split; [lia|exact Hfi]. }
  destruct Hfin as (k & Hk & Hfi).
  destruct (error_events_count r) as (Hef & _ & Hed & _).
  assert (Hfin' : finished (evs ++ error_events r) = finished evs).
  { rewrite finished_app, Hef. apply app_nil_r. }
  assert (Hcnt : count_ev is_file_done (evs ++ error_events r)
                 = length (finished evs)).
  { rewrite count_ev_app, Hd, Hed. lia. }
  rewrite Hfin'. split; [exact Hcnt|].
  rewrite Hfi. split; [apply List.seq_NoDup|].
  split. { intros i Hi. apply in_seq in Hi. lia. }
  intros n.
  match goal with |- context [firstn n ?l] =>
    destruct (handle_all_counters (firstn n l) a1) as [-> ->];
    pose proof (count_ev_firstn is_file_done n l) as Hle end.
  rewrite Hcnt, Hfi, length_seq in Hle. lia.
Qed.

(** ** Exceptions during a run *)



(** ** What the worker reads and writes *)

Section Reads.

Lemma same_reads_refl (a : App) : same_reads a a.
Proof. repeat split. Qed.

Lemma same_reads_emit (a a' : App) (evs : list Event) :
  same_reads a a' -> same_reads (emit a evs) (emit a' evs).
Proof. intros H. exact H. Qed.

Lemma reads_only_ret {A} (x : A) : reads_only (ret x).
Proof.
  intros a w. exists (Ok x), [], w. intros a' _. rewrite emit_nil. reflexivity.
Qed.

Lemma reads_only_lift_exc {A} (r : exc A) : reads_only (lift_exc r).
Proof.
  intros a w. exists r, [], w. intros a' _. rewrite emit_nil. reflexivity.
Qed.

Lemma reads_only_raise {A} (e : exn) : reads_only (@raise St A e).
Proof. exact (reads_only_lift_exc (Raise e)). Qed.

Lemma reads_only_on_world {A} (m : M World A) : reads_only (on_world m).
Proof.
  intros a w. exists (fst (m w)), [], (snd (m w)). intros a' _.
  rewrite emit_nil. apply on_world_run.
Qed.

Lemma reads_only_queue_put (ev : Event) : reads_only (queue_put ev).
Proof. intros a w. exists (Ok tt), [ev], w. intros a' _. reflexivity. Qed.

Lemma reads_only_gets {A} (f : App -> A) :
  (forall a a', same_reads a a' -> f a = f a') ->
  reads_only (gets (fun st => f (self st))).
Proof.
  intros Hf a w. exists (Ok (f a)), [], w. intros a' Ha.
  rewrite emit_nil. unfold gets. cbn [self]. rewrite (Hf a a' Ha). reflexivity.
Qed.

Lemma reads_only_bind {A B} (m : M St A) (f : A -> M St B) :
  reads_only m -> (forall x, reads_only (f x)) -> reads_only (bind m f).
Proof.
  intros Hm Hf a w. destruct (Hm a w) as (r1 & evs1 & w1 & H1).
  destruct r1 as [x|msg].
  - destruct (Hf x (emit a evs1) w1) as (r2 & evs2 & w2 & H2).
    exists r2, (evs1 ++ evs2), w2. intros a' Ha.
    unfold bind. rewrite (H1 a' Ha).
    rewrite (H2 (emit a' evs1) (same_reads_emit a a' evs1 Ha)).
    rewrite emit_emit. reflexivity.
  - exists (Raise msg), evs1, w1. intros a' Ha.
    unfold bind. rewrite (H1 a' Ha). reflexivity.
Qed.

Lemma reads_only_try {A} (body : M St A) (handler : string -> M St A) :
  reads_only body -> (forall msg, reads_only (handler msg)) ->
  reads_only (try_except body handler).
Proof.
  intros Hm Hf a w. destruct (Hm a w) as (r1 & evs1 & w1 & H1).
  destruct r1 as [x|[msg|msg]].
  - exists (Ok x), evs1, w1. intros a' Ha.
    unfold try_except. rewrite (H1 a' Ha). reflexivity.
  - destruct (Hf msg (emit a evs1) w1) as (r2 & evs2 & w2 & H2).
    exists r2, (evs1 ++ evs2), w2. intros a' Ha.
    unfold try_except. rewrite (H1 a' Ha).
    rewrite (H2 (emit a' evs1) (same_reads_emit a a' evs1 Ha)).
    rewrite emit_emit. reflexivity.
  - exists (Raise (BaseException msg)), evs1, w1. intros a' Ha.
    unfold try_except. rewrite (H1 a' Ha). reflexivity.
Qed.

Lemma reads_total_files : reads_only (gets (fun st => total_files (self st))).
Proof. apply (reads_only_gets total_files). intros a a' (_ & H & _). exact H. Qed.

Lemma reads_output_dir : reads_only (gets (fun st => output_dir (self st))).
Proof. apply (reads_only_gets output_dir). intros a a' (_ & _ & H). exact H. Qed.

Lemma reads_worker_files : reads_only (gets (fun st => worker_files (self st))).
Proof. apply (reads_only_gets worker_files). intros a a' (H & _). exact H. Qed.

Create HintDb reads discriminated.
Hint Resolve reads_only_ret reads_only_lift_exc reads_only_raise
  reads_only_on_world reads_only_queue_put reads_total_files
  reads_output_dir reads_worker_files : reads.

Ltac reads_steps :=
  repeat first
    [ apply reads_only_bind; [|intros]
    | solve [auto with reads] ].

Lemma reads_only_segments_loop (d : float) (segs : list Segment) (lines : list string) :
  reads_only (segments_loop d segs lines).
Proof.
  revert lines. induction segs as [|seg rest IH]; intros lines; cbn [segments_loop].
  - auto with reads.
  - apply reads_only_bind; [auto with reads|]. intros [e|]; [|apply IH].
    apply reads_only_bind; [auto with reads|]. intros _. apply IH.
Qed.

Lemma reads_only_write_lines env (out : Path) (lines : list string) :
  reads_only (write_lines env out lines).
Proof.
  induction lines as [|line rest IH]; cbn [write_lines]; [auto with reads|].
  apply reads_only_bind; [auto with reads|]. intros _. exact IH.
Qed.

Hint Resolve reads_only_segments_loop reads_only_write_lines : reads.

Lemma reads_only_transcribe_file env (idx : nat) (p : Path) :
  reads_only (transcribe_file env idx p).
Proof.
  unfold transcribe_file. reads_steps.
  match goal with |- context [tr_fail ?tr] => destruct (tr_fail tr) end;
    auto with reads.
Qed.

Lemma reads_only_for_files env (files : list Path) (idx : nat) :
  reads_only (for_files env idx files).
Proof.
  revert idx. induction files as [|f rest IH]; intros idx; cbn [for_files].
  - auto with reads.
  - apply reads_only_bind; [apply reads_only_transcribe_file|].
    intros _. apply IH.
Qed.

Lemma reads_only_worker env : reads_only (worker_transcribe_all env).
Proof.
  unfold worker_transcribe_all. apply reads_only_try; [|auto with reads].
  unfold worker_body, worker_setup. reads_steps.
  apply reads_only_for_files.
Qed.

End Reads.

(** C5, as the code has it.  The worker writes nothing of the application
    object but the queue, on which it only appends; of the application object
    it reads the run snapshot, the output directory and the counter
    [total_files]: two application objects that agree on these three give the
    same events and the same effect on the world, whatever their other
    fields. *)
Theorem worker_touches_only_queue env (a : App) (w : World) :
  exists r evs w',
    (forall msg, r <> Raise (Exception msg))
    /\ forall a',
         worker_files a' = worker_files a ->
         total_files a' = total_files a ->
         output_dir a' = output_dir a ->
         worker_transcribe_all env (mkSt a' w) = (r, mkSt (emit a' evs) w').
Proof.
  destruct (reads_only_worker env a w) as (r & evs & w' & H).
  exists r, evs, w'. split.
  - destruct (worker_transcribe_all_run env a w) as (r' & evs' & w'' & _ & Hall).
    rewrite (H a (same_reads_refl a)) in Hall. injection Hall as -> _ _.
    intros msg. destruct r' as [[]|[m|m]]; discriminate.
  - intros a' Hf Ht Ho. apply H. repeat split; congruence.
Qed.


(** ** The persisted output directory *)

Section ConfigFacts.

Lemma split_before_slash (x rest : string) :
  no_slash x = true ->
  split_on SLASH (x +:+ String SLASH rest) = x :: split_on SLASH rest.
Proof.
  induction x as [|c x IH]; intros Hx.
  - reflexivity.
  - simpl in Hx. apply andb_prop in Hx as [Hc Hx].
    change (String c x +:+ String SLASH rest) with (String c (x +:+ String SLASH rest)).
    cbn [split_on]. apply negb_true_iff in Hc. rewrite Hc, (IH Hx). reflexivity.
Qed.

Lemma split_concat (ps : list string) :
  ps <> [] -> forallb no_slash ps = true ->
  split_on SLASH (String.concat "/" ps) = ps.
Proof.
  induction ps as [|x ps IH]; [congruence|]. intros _ Hall.
  cbn [forallb] in Hall. apply andb_prop in Hall as [Hx Hps].
  destruct ps as [|y ps].
  - cbn [String.concat]. apply split_no_slash, Hx.
  - change (String.concat "/" (x :: y :: ps))
      with (x +:+ String SLASH (String.concat "/" (y :: ps))).
    rewrite (split_before_slash _ _ Hx), IH; [reflexivity|discriminate|exact Hps].
Qed.

Lemma plain_parts_kept (ps : list string) :
  forallb plain_component ps = true ->
  forallb no_slash ps = true /\ List.filter kept_component ps = ps.
Proof.
  induction ps as [|x ps IH]; [auto|]. cbn [forallb List.filter].
  intros [Hx Hps]%andb_prop. apply andb_prop in Hx as [Hs Hk].
  destruct (IH Hps) as [-> ->]. rewrite Hs, Hk. auto.
Qed.

Lemma concat_not_rooted (ps : list string) :
  forallb plain_component ps = true ->
  starts_with_slash (String.concat "/" ps) = false.
Proof.
  destruct ps as [|x ps]; [reflexivity|]. cbn [forallb].
  intros [Hx _]%andb_prop. apply andb_prop in Hx as [Hs Hk].
  destruct x as [|c x]; [discriminate Hk|].
  simpl in Hs. apply andb_prop in Hs as [Hc _]. apply negb_true_iff in Hc.
  destruct ps; exact Hc.
Qed.

Lemma root_of_str_anchor (r : anchor) (s : string) :
  starts_with_slash s = false -> root_of_str (anchor_str r +:+ s) = r.
Proof.
  intros H. destruct r.
  - change (root_of_str s = NoRoot).
    destruct s as [|c s]; [reflexivity|]. cbn [root_of_str starts_with_slash] in *.
    rewrite H. reflexivity.
  - change (root_of_str (String SLASH s) = Root). cbn [root_of_str].
    change (Ascii.eqb SLASH SLASH) with true. cbn iota.
    destruct s as [|c s]; [reflexivity|]. cbn [starts_with_slash] in H.
    rewrite H. reflexivity.
  - change (root_of_str (String SLASH (String SLASH s)) = Root2). cbn [root_of_str].
    change (Ascii.eqb SLASH SLASH) with true. cbn iota. rewrite H. reflexivity.
Qed.

Lemma split_anchor (r : anchor) (s : string) :
  List.filter kept_component (split_on SLASH (anchor_str r +:+ s))
  = List.filter kept_component (split_on SLASH s).
Proof. destruct r; reflexivity. Qed.

(** [Path(str(p)) == p] *)
Lemma path_of_str_path_str (p : Path) :
  plain_path p = true -> path_of_str (path_str p) = p.
Proof.
  destruct p as [r ps]. unfold plain_path. cbn [p_parts]. intros Hp.
  destruct (plain_parts_kept ps Hp) as [Hns Hkept].
  unfold path_str. cbn [p_root p_parts].
  destruct ps as [|x ps]; [destruct r; reflexivity|].
  destruct r; unfold path_of_str;
    rewrite (root_of_str_anchor _ _ (concat_not_rooted _ Hp)), split_anchor,
      split_concat by (congruence || exact Hns);
    rewrite Hkept; reflexivity.
Qed.

Lemma save_output_dir_run env (p : Path) (w : World) :
  save_output_dir env p w =
    (Ok tt,
     match env_fault env (w_tick w) with
     | Some _ => set_tick (S (w_tick w)) w
     | None =>
         set_config
           (match env_fault env (S (w_tick w)) with
            | Some _ => Some (Raise EMPTY_JSON)
            | None => Some (Ok (JDict [(OUTPUT_DIR_KEY, JStr (path_str p))]))
            end)
           (set_tick (S (S (w_tick w))) w)
     end).
Proof.
  unfold save_output_dir, try_except, write_config, bind.
  rewrite io_fault_run. destruct (env_fault env (w_tick w)); [reflexivity|].
  cbn [modify]. rewrite io_fault_run. cbn [w_tick set_config set_tick].
  destruct (env_fault env (S (w_tick w))); reflexivity.
Qed.

(** What [load_output_dir] makes of a configuration that reads as an object:
    the path under the key, or [Path("")] without the key, when that is a
    directory. *)
Lemma load_output_dir_of_dict env (w : World) (items : list (string * json)) (s : string) :
  w_config w = Some (Ok (JDict items)) ->
  match dict_lookup items OUTPUT_DIR_KEY with
  | Some v => v = JStr s
  | None => s = ""
  end ->
  load_output_dir env w =
    if path_exists env w (path_of_str s) && path_is_dir env w (path_of_str s)
    then (Ok (path_of_str s), w)
    else (path_mkdir env (DEFAULT_DOWNLOADS_DIR env) ;; ret (DEFAULT_DOWNLOADS_DIR env)) w.
Proof.
  intros Hc Hv.
  unfold load_output_dir, load_output_dir_try, try_except, read_config, bind, gets,
    lift_exc, json_get. cbn. rewrite Hc. cbn. rewrite ?Hc. cbn.
  destruct (dict_lookup items OUTPUT_DIR_KEY) as [v|]; subst; cbn;
    match goal with |- context [path_exists env w ?q && path_is_dir env w ?q] =>
      destruct (path_exists env w q && path_is_dir env w q) end;
    reflexivity.
Qed.

(** Without a configuration file the default directory is made and
    returned. *)
Lemma load_output_dir_no_file env (w : World) :
  w_config w = None ->
  load_output_dir env w =
    (path_mkdir env (DEFAULT_DOWNLOADS_DIR env) ;; ret (DEFAULT_DOWNLOADS_DIR env)) w.
Proof.
  intros Hc. unfold load_output_dir, load_output_dir_try, try_except, bind, gets.
  rewrite Hc. reflexivity.
Qed.

(** A configuration file that cannot be read or parsed gives the default. *)
Lemma load_output_dir_unreadable env (w : World) (msg : string) :
  w_config w = Some (Raise (Exception msg)) ->
  load_output_dir env w =
    (path_mkdir env (DEFAULT_DOWNLOADS_DIR env) ;; ret (DEFAULT_DOWNLOADS_DIR env)) w.
Proof.
  intros Hc. unfold load_output_dir, load_output_dir_try, try_except, read_config,
    bind, gets, lift_exc.
  cbn. rewrite Hc. cbn. rewrite ?Hc. reflexivity.
Qed.

(** The round trip: a directory saved and still a directory is the one
    loaded. *)
Lemma save_then_load env (p : Path) (w : World) :
  plain_path p = true ->
  env_fault env (w_tick w) = None ->
  env_fault env (S (w_tick w)) = None ->
  path_is_dir env w p = true ->
  load_output_dir env (snd (save_output_dir env p w))
  = (Ok p, snd (save_output_dir env p w)).
Proof.
  intros Hp Hf Hf' Hd. rewrite save_output_dir_run, Hf, Hf'. cbn [snd].
  set (w1 := set_config _ _).
  rewrite (load_output_dir_of_dict env w1
             [(OUTPUT_DIR_KEY, JStr (path_str p))] (path_str p))
    by reflexivity.
  rewrite (path_of_str_path_str p Hp).
  assert (He : path_exists env w p = true).
  { unfold path_exists, path_is_dir in *. apply bool_decide_eq_true in Hd.
    apply bool_decide_eq_true. rewrite Hd. eauto. }
  unfold path_exists, path_is_dir in *. subst w1. cbn [w_fs set_config set_tick].
  rewrite He, Hd. reflexivity.
Qed.

(** A stored path that is no directory any more gives the default. *)
Lemma load_output_dir_stale env (w : World) (items : list (string * json)) (s : string) :
  w_config w = Some (Ok (JDict items)) ->
  dict_lookup items OUTPUT_DIR_KEY = Some (JStr s) ->
  path_is_dir env w (path_of_str s) = false ->
  load_output_dir env w =
    (path_mkdir env (DEFAULT_DOWNLOADS_DIR env) ;; ret (DEFAULT_DOWNLOADS_DIR env)) w.
Proof.
  intros Hc Hk Hd.
  rewrite (load_output_dir_of_dict env w items s Hc) by (rewrite Hk; reflexivity).
  rewrite Hd, andb_false_r. reflexivity.
Qed.

(** A configuration without the key gives [Path("")], which is the working
    directory, and not the default. *)
Lemma load_output_dir_no_key env (w : World) (items : list (string * json)) :
  w_config w = Some (Ok (JDict items)) ->
  dict_lookup items OUTPUT_DIR_KEY = None ->
  stat (w_fs w) (env_cwd env) = Some Dir ->
  load_output_dir env w = (Ok (mkPath false []), w).
Proof.
  intros Hc Hk Hd.
  rewrite (load_output_dir_of_dict env w items "" Hc) by (rewrite Hk; reflexivity).
  change (path_of_str "") with (mkPath false []).
  unfold path_exists, path_is_dir, locate, p_abs, mkPath.
  cbn [p_root p_parts normalize].
  rewrite Hd. rewrite !bool_decide_eq_true_2 by eauto. reflexivity.
Qed.

End ConfigFacts.

(** C9 on the code.  A configuration file that holds an object without the
    key [output_dir] does not give the default downloads directory: the
    loaded directory is [Path("")], the working directory. *)
Theorem load_missing_key_returns_cwd :
  load_output_dir sample_env (sample_home_world (Some (Ok (JDict []))))
  = (Ok (mkPath false []), sample_home_world (Some (Ok (JDict []))))
  /\ path_str (mkPath false []) = "."
  /\ mkPath false [] <> DEFAULT_DOWNLOADS_DIR sample_env
  /\ path_str (DEFAULT_DOWNLOADS_DIR sample_env) = "/home/user/Downloads".
Proof.
  split; [|split; [reflexivity|split; [discriminate|reflexivity]]].
  apply (load_output_dir_no_key sample_env _ []); reflexivity.
Qed.

(** ** The staged files *)

Section Staging.
Variable p_exists : Path -> bool.
Variable p_resolve : Path -> exc Path.
(** The absolute path an entry resolves to. *)
Variable rs : Path -> Path.

Lemma any_staged_spec (resolved : Path) (staged : list Path) :
  Forall (on_disk p_exists p_resolve rs) staged ->
  exists b, any_staged p_exists p_resolve resolved staged = Ok b
            /\ (b = true <-> In resolved (map rs staged)).
Proof.
  induction 1 as [|f staged [Hex Hres] _ IH].
  - exists false. split; [reflexivity|]. simpl. split; [discriminate|tauto].
  - cbn [any_staged]. unfold staged_key. rewrite Hex, Hres.
    destruct (decide (rs f = resolved)) as [Heq|Hne].
    + rewrite bool_decide_eq_true_2 by exact Heq.
      exists true. split; [reflexivity|]. simpl. tauto.
    + rewrite bool_decide_eq_false_2 by exact Hne.
      destruct IH as (b & -> & Hb). exists b. split; [reflexivity|].
      simpl. rewrite Hb. split; [tauto|]. intros [Heq|Hin]; [contradiction|exact Hin].
Qed.

(** What one turn of the loop does to the staged list. *)
Lemma select_one_run (p : string) (a : App) :
  Forall (on_disk p_exists p_resolve rs) (audio_files a) -> on_disk p_exists p_resolve rs (path_of_str p) ->
  List.NoDup (map rs (audio_files a)) ->
  exists b a',
    select_one p_exists p_resolve p a = (Ok b, a')
    /\ Forall (on_disk p_exists p_resolve rs) (audio_files a')
    /\ List.NoDup (map rs (audio_files a'))
    /\ is_transcribing a' = is_transcribing a
    /\ (In (rs (path_of_str p)) (map rs (audio_files a)) -> a' = a /\ b = false).
Proof.
  intros Hst [Hex Hres] Hnd. unfold select_one.
  destruct (negb (supported (lower (path_suffix (path_of_str p))))).
  { exists false, a. repeat split; auto. }
  unfold bind at 1, try_except, lift_exc. rewrite Hres.
  unfold bind at 1. cbn [gets]. unfold bind at 1.
  destruct (any_staged_spec (rs (path_of_str p)) (audio_files a) Hst) as (b & -> & Hb).
  destruct b.
  - exists false, a. repeat split; auto.
  - unfold bind, modify, ret. eexists true, _. split; [reflexivity|].
    cbn [audio_files set_staged is_transcribing].
    split; [apply Forall_app; split; [exact Hst|repeat constructor; assumption]|].
    split.
    + rewrite map_app. cbn [map]. apply List.NoDup_app; [exact Hnd| |].
      * constructor; [intros []|constructor].
      * intros x Hx [<-|[]]. apply Hb in Hx. discriminate Hx.
    + split; [reflexivity|]. intros Hin. apply Hb in Hin. discriminate Hin.
Qed.

Lemma select_loop_run (filepaths : list string) (added : nat) (a : App) :
  Forall (on_disk p_exists p_resolve rs) (audio_files a) ->
  Forall (fun p => (on_disk p_exists p_resolve rs) (path_of_str p)) filepaths ->
  List.NoDup (map rs (audio_files a)) ->
  exists n a',
    select_loop p_exists p_resolve filepaths added a = (Ok n, a')
    /\ Forall (on_disk p_exists p_resolve rs) (audio_files a')
    /\ List.NoDup (map rs (audio_files a'))
    /\ is_transcribing a' = is_transcribing a.
Proof.
  revert added a. induction filepaths as [|p rest IH]; intros added a Hst Hsel Hnd.
  - exists added, a. auto.
  - inversion Hsel as [|? ? Hp Hrest]; subst.
    cbn [select_loop]. unfold bind at 1.
    destruct (select_one_run p a Hst Hp Hnd) as (b & a1 & -> & Hst1 & Hnd1 & Hbusy1 & _).
    destruct (IH (if b then added + 1 else added) a1 Hst1 Hrest Hnd1)
      as (n & a' & -> & Hst' & Hnd' & Hbusy').
    exists n, a'. repeat split; auto. congruence.
Qed.

Lemma on_select_files_run (filepaths : list string) (a : App) :
  Forall (on_disk p_exists p_resolve rs) (audio_files a) ->
  Forall (fun p => (on_disk p_exists p_resolve rs) (path_of_str p)) filepaths ->
  List.NoDup (map rs (audio_files a)) ->
  exists a',
    on_select_files p_exists p_resolve filepaths a = (Ok tt, a')
    /\ Forall (on_disk p_exists p_resolve rs) (audio_files a')
    /\ List.NoDup (map rs (audio_files a')).
Proof.
  intros Hst Hsel Hnd. unfold on_select_files.
  unfold bind at 1. cbn [gets].
  destruct (is_transcribing a); [exists a; auto|].
  destruct filepaths as [|p rest]; [exists a; auto|].
  unfold bind at 1.
  destruct (select_loop_run (p :: rest) 0 a Hst Hsel Hnd)
    as (n & a1 & -> & Hst1 & Hnd1 & _).
  unfold bind, modify, gets.
  destruct (total_files (set_total_files (length (audio_files a1)) a1) =? 0);
    eexists; (split; [reflexivity|]); split; assumption.
Qed.

Lemma select_many_run (selections : list (list string)) (a : App) :
  Forall (on_disk p_exists p_resolve rs) (audio_files a) ->
  Forall (Forall (fun p => (on_disk p_exists p_resolve rs) (path_of_str p))) selections ->
  List.NoDup (map rs (audio_files a)) ->
  exists a',
    select_many p_exists p_resolve selections a = (Ok tt, a')
    /\ List.NoDup (map rs (audio_files a')).
Proof.
  revert a. induction selections as [|sel rest IH]; intros a Hst Hsel Hnd.
  - exists a. auto.
  - inversion Hsel as [|? ? Hs Hrest]; subst.
    cbn [select_many]. unfold bind at 1.
    destruct (on_select_files_run sel a Hst Hs Hnd) as (a1 & -> & Hst1 & Hnd1).
    exact (IH a1 Hst1 Hrest Hnd1).
Qed.

End Staging.

(** X11. Through every sequence of additions in which each staged and each
    selected path is on disk and resolves, no two entries of the staged list
    resolve to the same absolute path; and an addition whose resolved path is
    that of a staged entry is not appended. *)
Theorem staged_entries_distinct (p_exists : Path -> bool) (p_resolve : Path -> exc Path)
    (rs : Path -> Path) (selections : list (list string)) (a : App) :
  Forall (on_disk p_exists p_resolve rs) (audio_files a) ->
  Forall (Forall (fun p => on_disk p_exists p_resolve rs (path_of_str p))) selections ->
  List.NoDup (map rs (audio_files a)) ->
  (exists a',
     select_many p_exists p_resolve selections a = (Ok tt, a')
     /\ List.NoDup (map rs (audio_files a')))
  /\ (forall p,
        on_disk p_exists p_resolve rs (path_of_str p) ->
        In (rs (path_of_str p)) (map rs (audio_files a)) ->
        select_one p_exists p_resolve p a = (Ok false, a)).
Proof.
  intros Hst Hsel Hnd. split.
  - exact (select_many_run p_exists p_resolve rs selections a Hst Hsel Hnd).
  - intros p Hp Hin.
    destruct (select_one_run p_exists p_resolve rs p a Hst Hp Hnd)
      as (b & a' & Hrun & _ & _ & _ & Hsame).
    destruct (Hsame Hin) as [-> ->]. exact Hrun.
Qed.


(** ** The theorems on the sample world *)



Lemma transcript_written_witness :
  exists tr t h m s,
    env_transcribe sample_env t "/rec/one.mp3" = Ok tr
    /\ h < 24 /\ m < 60 /\ s < 60
    /\ transcript (recognized_lines (tr_segments tr))
       = "hello" +:+ blank_line +:+ "world" +:+ blank_line.
Proof.
  destruct (transcript_written sample_env 1 (mkPath true ["rec"; "one.mp3"])
              (mkSt sample_started sample_world)
              (snd (transcribe_file sample_env 1 (mkPath true ["rec"; "one.mp3"])
                      (mkSt sample_started sample_world))))
    as (tr & t & h & m & s & Htr & Hh & Hm & Hs & _).
  - vm_compute. reflexivity.
  - exists tr, t, h, m, s. repeat split; try assumption.
    vm_compute in Htr. injection Htr as <-. vm_compute. reflexivity.
Defined.

Lemma empty_transcript_created_witness :
  exists secs evs,
    w_fs (world (snd (transcribe_file sample_env 1 (mkPath true ["rec"; "silence.wav"])
                        (mkSt sample_started sample_world))))
    !! (["out"] ++ [out_name 1 (strftime_HMS secs)])
    = Some (File "utf-8" "")
    /\ count_ev is_segment_ev evs = 0.
Proof.
  destruct (empty_transcript_created sample_env 1 (mkPath true ["rec"; "silence.wav"])
              (mkSt sample_started sample_world)
              (snd (transcribe_file sample_env 1 (mkPath true ["rec"; "silence.wav"])
                      (mkSt sample_started sample_world))))
    as (secs & evs & Hfile & _ & Hnone).
  - vm_compute. reflexivity.
  - intros t tr Htr. vm_compute in Htr. injection Htr as <-. reflexivity.
  - exists secs, evs. split; [exact Hfile|exact Hnone].
Defined.

Lemma run_completes_witness :
  exists (pre : list Event) (t : float) (names : list string),
    files_done (handle_all (pre ++ [AllDone t]) sample_quiet_started) = 2
    /\ length names = 2 /\ List.NoDup names.
Proof.
  destruct (run_completes sample_env (sample_idle sample_quiet_files)
              sample_quiet_started sample_world
              (snd (worker_body sample_env (mkSt sample_quiet_started sample_world))))
    as (pre & t & names & _ & _ & _ & _ & _ & _ & Hdone & Hlen & Hnd & _).
  - reflexivity.
  - vm_compute. reflexivity.
  - exists pre, t, names. auto.
Defined.

Lemma files_done_bounded_witness :
  files_done sample_started = 0 /\ total_files sample_started = 3.
Proof.
  destruct (files_done_bounded sample_env (sample_idle sample_files) sample_started
              sample_world) as (H0 & Htotal & _).
  - reflexivity.
  - split; [exact H0|exact Htotal].
Defined.

Lemma worker_touches_only_queue_witness :
  exists r evs w',
    worker_transcribe_all sample_env (mkSt (handle_all [FileDone 1 3 "a" "b" f_zero] sample_started) sample_world)
    = (r, mkSt (emit (handle_all [FileDone 1 3 "a" "b" f_zero] sample_started) evs) w').
Proof.
  destruct (worker_touches_only_queue sample_env sample_started sample_world)
    as (r & evs & w' & _ & H).
  exists r, evs, w'. apply H; reflexivity.
Defined.

(** Against C5 as stated: with the same snapshot, the same output directory,
    the same engine and the same world, the events differ with the counter
    [total_files], which the worker reads from the application object. *)
Lemma worker_reads_total_files :
  worker_files sample_miscounted = worker_files sample_started
  /\ output_dir sample_miscounted = output_dir sample_started
  /\ queue sample_miscounted = queue sample_started
  /\ queue (self (snd (worker_transcribe_all sample_env
                         (mkSt sample_miscounted sample_world))))
     <> queue (self (snd (worker_transcribe_all sample_env
                            (mkSt sample_started sample_world)))).
Proof.
  repeat split. vm_compute. intros H. discriminate H.
Qed.

Lemma staged_entries_distinct_witness :
  exists a',
    select_many (path_exists sample_env sample_rec_world) (path_resolve sample_env)
      [["/rec/one.mp3"; "/rec/two.mp3"]; ["/rec/one.mp3"; "/rec//two.mp3"]]
      (sample_idle [])
    = (Ok tt, a')
    /\ List.NoDup (map sample_resolve (audio_files a')).
Proof.
  apply (staged_entries_distinct (path_exists sample_env sample_rec_world)
           (path_resolve sample_env) sample_resolve
           [["/rec/one.mp3"; "/rec/two.mp3"]; ["/rec/one.mp3"; "/rec//two.mp3"]]
           (sample_idle [])).
  - constructor.
  - repeat constructor.
  - constructor.
Defined.


(** ** Loading the output directory, case by case *)

Lemma load_output_dir_try_run env (w : World) :
  try_except (load_output_dir_try env) (fun _ => ret None) w =
    (match w_config w with
     | Some (Raise (BaseException msg)) => Raise (BaseException msg)
     | _ =>
         Ok (match config_path_string (w_config w) with
             | Some s =>
                 if path_exists env w (path_of_str s) && path_is_dir env w (path_of_str s)
                 then Some (path_of_str s) else None
             | None => None
             end)
     end, w).
Proof.
  unfold try_except, load_output_dir_try, read_config, bind, gets, lift_exc.
  destruct (w_config w) as [[j|[msg|msg]]|] eqn:Hc; cbn; rewrite ?Hc; cbn;
    try reflexivity.
  destruct j as [| | | | |l|items]; cbn; try reflexivity.
  destruct (dict_lookup items OUTPUT_DIR_KEY) as [[| | | |s| |]|]; cbn; try reflexivity;
    match goal with |- context [path_exists env w ?q && path_is_dir env w ?q] =>
      destruct (path_exists env w q && path_is_dir env w q) end; reflexivity.
Qed.

(** X1. [load_output_dir] raises nothing that is an [Exception] on account
    of the configuration: without a file, with a file that cannot be read or
    parsed, with a value that is no object, or with a value under the key that
    is no string, it falls back to the default directory; so it does when the
    stored path is no directory; otherwise it returns the stored path and
    leaves the world as it is.  Only an exception outside [Exception], raised
    while the file is read, leaves it. *)
Theorem load_output_dir_cases env (w : World) :
  load_output_dir env w =
    match w_config w with
    | Some (Raise (BaseException msg)) => (Raise (BaseException msg), w)
    | _ =>
        match config_path_string (w_config w) with
        | Some s =>
            if path_exists env w (path_of_str s) && path_is_dir env w (path_of_str s)
            then (Ok (path_of_str s), w)
            else load_default env w
        | None => load_default env w
        end
    end.
Proof.
  unfold load_output_dir. unfold bind at 1. rewrite load_output_dir_try_run.
  destruct (w_config w) as [[j|[msg|msg]]|]; try reflexivity;
    (destruct (config_path_string _) as [s|]; [|reflexivity];
     destruct (path_exists env w (path_of_str s) && path_is_dir env w (path_of_str s));
     reflexivity).
Qed.

(** X2. Whatever [load_output_dir] returns is a directory on disk when it
    returns. *)
Theorem load_output_dir_is_dir env (w w' : World) (p : Path) :
  load_output_dir env w = (Ok p, w') ->
  path_is_dir env w' p = true.
Proof.
  assert (Hdef : load_default env w = (Ok p, w') -> path_is_dir env w' p = true).
  { unfold load_default, bind. rewrite path_mkdir_run.
    destruct (env_fault env (w_tick w)); [discriminate|].
    destruct (mkdir_parents (path_str (DEFAULT_DOWNLOADS_DIR env)) (w_fs w) []
                (locate (env_cwd env) (DEFAULT_DOWNLOADS_DIR env)))
      as [fs'|] eqn:Emk; [|discriminate].
    intros H. injection H as <- <-. unfold path_is_dir. cbn [w_fs set_fs set_tick].
    apply bool_decide_eq_true.
    apply (mkdir_parents_makes_dir _ (w_fs w) [] _ fs' eq_refl Emk). }
  unfold load_output_dir. unfold bind at 1. rewrite load_output_dir_try_run.
  set (c := config_path_string (w_config w)).
  assert (Hcase :
            match
              match c with
              | Some s =>
                  if path_exists env w (path_of_str s) && path_is_dir env w (path_of_str s)
                  then Some (path_of_str s) else None
              | None => None
              end
            with
            | Some out => ret out
            | None =>
                path_mkdir env (DEFAULT_DOWNLOADS_DIR env) ;;
                ret (DEFAULT_DOWNLOADS_DIR env)
            end w = (Ok p, w') -> path_is_dir env w' p = true).
  { destruct c as [s|]; [|exact Hdef].
    destruct (path_exists env w (path_of_str s) && path_is_dir env w (path_of_str s)) eqn:E;
      [|exact Hdef].
    intros H. injection H as <- <-. apply andb_prop in E as [_ E]. exact E. }
  destruct (w_config w) as [[j|[msg|msg]]|]; try exact Hcase. discriminate.
Qed.

Lemma load_output_dir_is_dir_witness :
  path_is_dir sample_env (snd (load_output_dir sample_env (sample_home_world None)))
    (DEFAULT_DOWNLOADS_DIR sample_env) = true.
Proof.
  apply (load_output_dir_is_dir sample_env (sample_home_world None)).
  vm_compute. reflexivity.
Defined.

(** ** Saving, then loading *)

(** X3. A save that fails raises nothing.  When it fails as the file is
    opened, the directory saved before is the one loaded next; when it fails
    as the text is written, the file is left without text, and the next load
    falls back to the default directory. *)
Theorem failed_save_is_silent env (p1 p2 : Path) (w : World) (msg : string) :
  plain_path p1 = true ->
  path_is_dir env w p1 = true ->
  env_fault env (w_tick w) = None ->
  env_fault env (S (w_tick w)) = None ->
  let w1 := snd (save_output_dir env p1 w) in
  let w2 := snd (save_output_dir env p2 w1) in
  fst (save_output_dir env p2 w1) = Ok tt
  /\ (env_fault env (w_tick w1) = Some msg ->
      load_output_dir env w2 = (Ok p1, w2))
  /\ (env_fault env (w_tick w1) = None ->
      env_fault env (S (w_tick w1)) = Some msg ->
      w_config w2 = Some (Raise EMPTY_JSON)
      /\ load_output_dir env w2 = load_default env w2).
Proof.
  intros Hp Hd Hf1 Hf2. cbv zeta.
  rewrite (save_output_dir_run env p1 w), Hf1, Hf2. cbn [snd].
  rewrite save_output_dir_run. cbn [w_tick set_config set_tick fst snd].
  split; [reflexivity|]. split.
  - intros Hf. rewrite Hf.
    match goal with |- load_output_dir env ?w1 = _ =>
      rewrite (load_output_dir_of_dict env w1
                 [(OUTPUT_DIR_KEY, JStr (path_str p1))] (path_str p1))
        by reflexivity end.
    rewrite (path_of_str_path_str p1 Hp).
    assert (He : path_exists env w p1 = true).
    { unfold path_exists, path_is_dir in *. apply bool_decide_eq_true in Hd.
      apply bool_decide_eq_true. rewrite Hd. eauto. }
    unfold path_exists, path_is_dir in *. cbn [w_fs set_config set_tick].
    rewrite He, Hd. reflexivity.
  - intros Hf Hf'. rewrite Hf, Hf'. split; [reflexivity|].
    apply (load_output_dir_unreadable env _ "Expecting value: line 1 column 1 (char 0)").
    reflexivity.
Qed.

Lemma failed_save_is_silent_witness :
  w_config
    (snd (save_output_dir (sample_full_disk_env 3) (mkPath true ["out"])
            (snd (save_output_dir (sample_full_disk_env 3) (mkPath true ["home"; "user"])
                    (sample_home_world None)))))
  = Some (Raise EMPTY_JSON).
Proof.
  pose proof (failed_save_is_silent (sample_full_disk_env 3)
                (mkPath true ["home"; "user"]) (mkPath true ["out"])
                (sample_home_world None) "[Errno 28] No space left on device") as H.
  cbv zeta in H.
  destruct H as (_ & _ & H); [reflexivity|vm_compute; reflexivity|reflexivity|reflexivity|].
  destruct H as [H _]; [reflexivity|reflexivity|]. exact H.
Defined.

(** X12. The round trip of the output directory: a directory that is saved,
    the write not failing, and that is a directory, is the one loaded next;
    the save raises nothing and leaves the tree as it is. *)
Theorem saved_dir_is_loaded env (p : Path) (w : World) :
  plain_path p = true ->
  env_fault env (w_tick w) = None ->
  env_fault env (S (w_tick w)) = None ->
  path_is_dir env w p = true ->
  fst (save_output_dir env p w) = Ok tt
  /\ w_fs (snd (save_output_dir env p w)) = w_fs w
  /\ load_output_dir env (snd (save_output_dir env p w))
     = (Ok p, snd (save_output_dir env p w)).
Proof.
  intros Hp Hf Hf' Hd.
  split; [rewrite save_output_dir_run; reflexivity|].
  split; [rewrite save_output_dir_run, Hf; reflexivity|].
  exact (save_then_load env p w Hp Hf Hf' Hd).
Qed.

Lemma saved_dir_is_loaded_witness :
  load_output_dir sample_env
    (snd (save_output_dir sample_env (mkPath true ["home"; "user"])
            (sample_home_world None)))
  = (Ok (mkPath true ["home"; "user"]),
     snd (save_output_dir sample_env (mkPath true ["home"; "user"])
            (sample_home_world None))).
Proof.
  apply (saved_dir_is_loaded sample_env (mkPath true ["home"; "user"])
           (sample_home_world None));
    [reflexivity | reflexivity | reflexivity | vm_compute; reflexivity].
Defined.

(** ** Changing the output directory *)

Lemma split_parts_no_slash (s : string) :
  forallb no_slash (split_on SLASH s) = true.
Proof.
  induction s as [|c s IH]; [reflexivity|]. cbn [split_on].
  destruct (Ascii.eqb c SLASH) eqn:E; [exact IH|].
  destruct (split_on SLASH s) as [|h t]; cbn [forallb no_slash] in *;
    rewrite E; [reflexivity|exact IH].
Qed.

(** A path made from a string has plain components only. *)
Lemma plain_path_of_str (s : string) : plain_path (path_of_str s) = true.
Proof.
  unfold plain_path, path_of_str. cbn [p_parts].
  pose proof (split_parts_no_slash s) as H.
  induction (split_on SLASH s) as [|x l IH]; [reflexivity|].
  cbn [forallb List.filter] in *. apply andb_prop in H as [Hx Hl].
  destruct (kept_component x) eqn:Hk; [|exact (IH Hl)].
  cbn [forallb]. unfold plain_component at 1. rewrite Hx, Hk. exact (IH Hl).
Qed.

Lemma mkdir_parents_raises (name : string) (fs : tree) (done todo : list string)
    (e : exn) :
  mkdir_parents name fs done todo = Raise e -> is_Exception e = true.
Proof.
  revert fs done. induction todo as [|c r IH]; intros fs done H; simpl in H.
  - discriminate H.
  - destruct (fs !! (done ++ [c])) as [[|e0 c0]|].
    + exact (IH _ _ H).
    + injection H as <-. reflexivity.
    + exact (IH _ _ H).
Qed.

(** What [mkdir] raises is an [OSError]. *)
Lemma path_mkdir_raises env (p : Path) (w w1 : World) (e : exn) :
  path_mkdir env p w = (Raise e, w1) ->
  is_Exception e = true /\ w1 = set_tick (S (w_tick w)) w.
Proof.
  rewrite path_mkdir_run.
  destruct (env_fault env (w_tick w)).
  - intros H. injection H as <- <-. auto.
  - destruct (mkdir_parents _ _ _ _) as [fs'|e'] eqn:Emk; [discriminate|].
    intros H. injection H as <- <-. split; [|reflexivity].
    exact (mkdir_parents_raises _ _ _ _ _ Emk).
Qed.

Lemma on_change_output_dir_run env (new_dir : string) (a : App) (w : World) :
  on_change_output_dir env new_dir (mkSt a w) =
    if String.eqb new_dir "" then (Ok tt, mkSt a w)
    else match path_mkdir env (path_of_str new_dir) w with
         | (Ok _, w1) =>
             (Ok tt, mkSt (set_output_dir (path_of_str new_dir) a)
                       (snd (save_output_dir env (path_of_str new_dir) w1)))
         | (Raise _, w1) => (Ok tt, mkSt a w1)
         end.
Proof.
  unfold on_change_output_dir. destruct (String.eqb new_dir ""); [reflexivity|].
  unfold bind at 1, try_except. unfold bind at 1. rewrite on_world_run.
  destruct (path_mkdir env (path_of_str new_dir) w) as [[[]|e] w1] eqn:Emk;
    cbn [fst snd ret].
  - unfold bind, modify. cbn [self world]. rewrite on_world_run.
    rewrite save_output_dir_run. reflexivity.
  - destruct (path_mkdir_raises _ _ _ _ _ Emk) as [He _].
    destruct e as [msg|msg]; [reflexivity|discriminate He].
Qed.



(** X5. A directory chosen and made is the output directory from then on, and
    also after a restart, provided the write of the configuration does not
    fail. *)
Theorem on_change_output_dir_saved env (new_dir : string) (st : St) :
  new_dir <> "" ->
  fst (path_mkdir env (path_of_str new_dir) (world st)) = Ok tt ->
  env_fault env (S (w_tick (world st))) = None ->
  env_fault env (S (S (w_tick (world st)))) = None ->
  exists st',
    on_change_output_dir env new_dir st = (Ok tt, st')
    /\ output_dir (self st') = path_of_str new_dir
    /\ path_is_dir env (world st') (path_of_str new_dir) = true
    /\ load_output_dir env (world st') = (Ok (path_of_str new_dir), world st').
Proof.
  destruct st as [a w]. cbn [world self]. intros Hne Hmk Hf Hf'.
  rewrite on_change_output_dir_run.
  apply String.eqb_neq in Hne. rewrite Hne.
  destruct (path_mkdir env (path_of_str new_dir) w) as [[[]|msg] w1] eqn:Erun;
    [|discriminate Hmk].
  eexists. split; [reflexivity|]. split; [reflexivity|]. cbn [world].
  assert (Htick : w_tick w1 = S (w_tick w)).
  { rewrite path_mkdir_run in Erun. destruct (env_fault env (w_tick w)); [discriminate|].
    destruct (mkdir_parents _ _ _ _); [|discriminate]. injection Erun as <-. reflexivity. }
  assert (Hdir : path_is_dir env w1 (path_of_str new_dir) = true).
  { rewrite path_mkdir_run in Erun. destruct (env_fault env (w_tick w)); [discriminate|].
    destruct (mkdir_parents (path_str (path_of_str new_dir)) (w_fs w) []
                (locate (env_cwd env) (path_of_str new_dir)))
      as [fs'|] eqn:Emk; [|discriminate].
    injection Erun as <-. unfold path_is_dir. cbn [w_fs set_fs set_tick].
    apply bool_decide_eq_true.
    apply (mkdir_parents_makes_dir _ (w_fs w) [] _ fs' eq_refl Emk). }
  rewrite <- Htick in Hf, Hf'.
  pose proof (save_then_load env (path_of_str new_dir) w1 (plain_path_of_str new_dir)
                Hf Hf' Hdir) as Hload.
  split; [|exact Hload].
  rewrite save_output_dir_run, Hf, Hf'. exact Hdir.
Qed.

Lemma on_change_output_dir_saved_witness :
  exists st',
    on_change_output_dir sample_env "/out" (mkSt (sample_idle []) sample_world)
    = (Ok tt, st')
    /\ load_output_dir sample_env (world st') = (Ok (mkPath true ["out"]), world st').
Proof.
  destruct (on_change_output_dir_saved sample_env "/out"
              (mkSt (sample_idle []) sample_world))
    as (st' & H1 & _ & _ & H4).
  - discriminate.
  - vm_compute. reflexivity.
  - reflexivity.
  - reflexivity.
  - exists st'. split; [exact H1|exact H4].
Defined.

(** ** Starting a run twice *)

(** X6. However often Start is pressed, one worker is started: applied to
    its own result, [on_start_transcription] changes nothing and starts
    nothing. *)
Theorem start_twice_starts_once (a : App) :
  on_start_transcription (fst (on_start_transcription a))
  = (fst (on_start_transcription a), false).
Proof.
  unfold on_start_transcription.
  destruct (is_transcribing a) eqn:Eb; cbn [fst]; [rewrite Eb; reflexivity|].
  destruct (audio_files a) as [|f fs] eqn:Ef; cbn [fst].
  - rewrite Eb, Ef. reflexivity.
  - reflexivity.
Qed.

(** ** What a selection does to the staged list *)

Section Selecting.
Variable p_exists : Path -> bool.
Variable p_resolve : Path -> exc Path.

Lemma select_one_cases (p : string) (a : App) :
  exists r a',
    select_one p_exists p_resolve p a = (r, a')
    /\ (a' = a
        \/ (supported (lower (path_suffix (path_of_str p))) = true
            /\ a' = set_staged (audio_files a ++ [path_of_str p])
                      (file_listbox a ++ [path_name (path_of_str p)]) a)).
Proof.
  unfold select_one.
  destruct (supported (lower (path_suffix (path_of_str p)))) eqn:Es; cbn [negb].
  2: { exists (Ok false), a. auto. }
  assert (Hrest : forall resolved,
            exists r a',
              (staged <- gets audio_files ;;
               already <- lift_exc (any_staged p_exists p_resolve resolved staged) ;;
               if already then ret false
               else
                 modify (fun a => set_staged (audio_files a ++ [path_of_str p])
                                    (file_listbox a ++ [path_name (path_of_str p)]) a) ;;
                 ret true) a = (r, a')
              /\ (a' = a
                  \/ (true = true
                      /\ a' = set_staged (audio_files a ++ [path_of_str p])
                                (file_listbox a ++ [path_name (path_of_str p)]) a))).
  { intros resolved. unfold bind at 1. cbn [gets]. unfold bind at 1, lift_exc.
    destruct (any_staged p_exists p_resolve resolved (audio_files a)) as [[|]|e].
    - exists (Ok false), a. auto.
    - eexists (Ok true), _. split; [reflexivity|]. right. auto.
    - exists (Raise e), a. auto. }
  unfold bind at 1, try_except, lift_exc at 1.
  destruct (p_resolve (path_of_str p)) as [resolved|[msg|msg]].
  - apply Hrest.
  - apply Hrest.
  - exists (Raise (BaseException msg)), a. auto.
Qed.

Lemma staged_more_refl (filepaths : list string) (a : App) : staged_more filepaths a a [].
Proof. unfold staged_more. rewrite !app_nil_r. repeat split; auto. Qed.

Lemma select_loop_grows (filepaths : list string) (added : nat) (a : App) :
  exists r a' more,
    select_loop p_exists p_resolve filepaths added a = (r, a')
    /\ staged_more filepaths a a' more
    /\ total_files a' = total_files a /\ start_button a' = start_button a.
Proof.
  revert added a. induction filepaths as [|p rest IH]; intros added a.
  - exists (Ok added), a, []. split; [reflexivity|]. split; [apply staged_more_refl|auto].
  - cbn [select_loop]. unfold bind at 1.
    destruct (select_one_cases p a) as (r1 & a1 & -> & Hcase).
    destruct r1 as [b|msg].
    + destruct (IH (if b then added + 1 else added) a1)
        as (r & a' & more & -> & Hmore & Htot & Hbtn).
      destruct Hmore as (Hf & Hl & Hall & Hq & Hw & Hd & Ho & Hb).
      assert (Hall' : Forall (fun f => supported (lower (path_suffix f)) = true
                                       /\ In f (map path_of_str (p :: rest))) more).
      { eapply List.Forall_impl; [|exact Hall]. intros f [H1 H2]. split; [exact H1|].
        right. exact H2. }
      destruct Hcase as [->|[Hs ->]].
      * exists r, a', more. split; [reflexivity|]. repeat split; auto.
      * exists r, a', (path_of_str p :: more). split; [reflexivity|].
        cbn [audio_files file_listbox set_staged queue worker_files files_done
               output_dir is_transcribing total_files start_button] in *.
        rewrite <- !app_assoc in *. cbn [app map] in *.
        repeat split; auto. constructor; [|exact Hall'].
        split; [exact Hs|]. left. reflexivity.
    + exists (Raise msg), a1.
      destruct Hcase as [->|[Hs ->]].
      * exists []. split; [reflexivity|]. split; [apply staged_more_refl|auto].
      * exists [path_of_str p]. split; [reflexivity|].
        repeat split; auto. repeat constructor; auto.
Qed.

End Selecting.

(** X7. Whatever a selection does, also when it ends in an exception, it
    only puts new entries behind the staged ones; each new entry is one of
    the selected paths and has a supported extension, lower-cased; the list
    box gets the names of the new entries in the same order; the queue, the
    snapshot, [files_done], the output directory and [is_transcribing] stay
    as they were. *)
Theorem on_select_files_grows (p_exists : Path -> bool) (p_resolve : Path -> exc Path)
    (filepaths : list string) (a : App) :
  exists r a' added,
    on_select_files p_exists p_resolve filepaths a = (r, a')
    /\ audio_files a' = audio_files a ++ added
    /\ file_listbox a' = file_listbox a ++ map path_name added
    /\ Forall (fun f => supported (lower (path_suffix f)) = true
                        /\ In f (map path_of_str filepaths)) added
    /\ queue a' = queue a /\ worker_files a' = worker_files a
    /\ files_done a' = files_done a /\ output_dir a' = output_dir a
    /\ is_transcribing a' = is_transcribing a.
Proof.
  unfold on_select_files. unfold bind at 1. cbn [gets].
  destruct (is_transcribing a) eqn:Eb.
  { exists (Ok tt), a, []. split; [reflexivity|]. rewrite !app_nil_r. repeat split; auto. }
  destruct filepaths as [|p rest].
  { exists (Ok tt), a, []. split; [reflexivity|]. rewrite !app_nil_r. repeat split; auto. }
  unfold bind at 1.
  destruct (select_loop_grows p_exists p_resolve (p :: rest) 0 a)
    as (r & a1 & more & -> & Hmore & _).
  destruct Hmore as (Hf & Hl & Hall & Hq & Hw & Hd & Ho & Hb').
  destruct r as [n|msg].
  - unfold bind, modify, gets.
    destruct (total_files (set_total_files (length (audio_files a1)) a1) =? 0);
      eexists (Ok tt), _, more; (split; [reflexivity|]); cbn; repeat split; auto; congruence.
  - exists (Raise msg), a1, more. split; [reflexivity|]. repeat split; auto; congruence.
Qed.

(** X8. A selection made during a run, or an empty one, changes nothing;
    any other selection that returns leaves [total_files] at the number of
    staged files and the Start button enabled exactly when a file is
    staged. *)
Theorem on_select_files_counts (p_exists : Path -> bool) (p_resolve : Path -> exc Path)
    (filepaths : list string) (a a' : App) :
  on_select_files p_exists p_resolve filepaths a = (Ok tt, a') ->
  (is_transcribing a = true \/ filepaths = [] -> a' = a)
  /\ (is_transcribing a = false -> filepaths <> [] ->
      total_files a' = length (audio_files a')
      /\ start_button a' = negb (length (audio_files a') =? 0)).
Proof.
  unfold on_select_files. unfold bind at 1. cbn [gets].
  destruct (is_transcribing a) eqn:Eb.
  { intros H. injection H as <-. split; [auto|discriminate]. }
  destruct filepaths as [|p rest].
  { intros H. injection H as <-. split; [auto|congruence]. }
  unfold bind at 1.
  destruct (select_loop p_exists p_resolve (p :: rest) 0 a) as [[n|msg] a1];
    [|discriminate].
  unfold bind, modify, gets. cbn [total_files set_total_files].
  split; [intros [H0|H0]; discriminate|]. intros _ _.
  destruct (length (audio_files a1) =? 0) eqn:E; injection H as <-; cbn; rewrite ?E; auto.
Qed.

Lemma on_select_files_counts_witness :
  total_files
    (snd (on_select_files (path_exists sample_env sample_rec_world)
            (path_resolve sample_env) ["/rec/one.mp3"; "/rec/notes.txt"]
            (sample_idle [])))
  = 1
  /\ start_button
       (snd (on_select_files (path_exists sample_env sample_rec_world)
               (path_resolve sample_env) ["/rec/one.mp3"; "/rec/notes.txt"]
               (sample_idle [])))
     = true.
Proof.
  destruct (on_select_files_counts (path_exists sample_env sample_rec_world)
              (path_resolve sample_env) ["/rec/one.mp3"; "/rec/notes.txt"]
              (sample_idle [])
              (snd (on_select_files (path_exists sample_env sample_rec_world)
                      (path_resolve sample_env) ["/rec/one.mp3"; "/rec/notes.txt"]
                      (sample_idle []))))
    as [_ H].
  - vm_compute. reflexivity.
  - destruct H as [H1 H2]; [reflexivity|discriminate|].
    rewrite H1, H2. vm_compute. split; reflexivity.
Defined.

(** ** Selecting the same files again *)

Section Reselecting.
Variable p_exists : Path -> bool.
Variable p_resolve : Path -> exc Path.
Variable rs : Path -> Path.




End Reselecting.



(** ** The states of the UI *)

Section Controls.

Lemma handle_all_app (l1 l2 : list Event) (a : App) :
  handle_all (l1 ++ l2) a = handle_all l2 (handle_all l1 a).
Proof. unfold handle_all. apply fold_left_app. Qed.

(** No event changes the queue, the staged files, the snapshot or the output
    directory. *)
Lemma handle_message_frame (msg : Event) (a : App) :
  queue (handle_message msg a) = queue a
  /\ audio_files (handle_message msg a) = audio_files a
  /\ worker_files (handle_message msg a) = worker_files a
  /\ output_dir (handle_message msg a) = output_dir a
  /\ file_listbox (handle_message msg a) = file_listbox a.
Proof. destruct msg; repeat split. Qed.

Lemma handle_all_frame (msgs : list Event) (a : App) :
  queue (handle_all msgs a) = queue a
  /\ audio_files (handle_all msgs a) = audio_files a
  /\ worker_files (handle_all msgs a) = worker_files a
  /\ output_dir (handle_all msgs a) = output_dir a
  /\ file_listbox (handle_all msgs a) = file_listbox a.
Proof.
  revert a. induction msgs as [|msg msgs IH]; intros a; [repeat split|].
  unfold handle_all. cbn [fold_left]. fold (handle_all msgs (handle_message msg a)).
  destruct (IH (handle_message msg a)) as (-> & -> & -> & -> & ->).
  apply handle_message_frame.
Qed.

(** Only [all_done] and [error] touch the controls. *)
Lemma handle_all_controls (msgs : list Event) (a : App) :
  count_ev is_all_done msgs = 0 -> count_ev is_error msgs = 0 ->
  is_transcribing (handle_all msgs a) = is_transcribing a
  /\ select_button (handle_all msgs a) = select_button a
  /\ start_button (handle_all msgs a) = start_button a
  /\ change_output_button (handle_all msgs a) = change_output_button a.
Proof.
  revert a. induction msgs as [|msg msgs IH]; intros a Ha He; [repeat split|].
  rewrite count_ev_cons in Ha, He.
  unfold handle_all. cbn [fold_left]. fold (handle_all msgs (handle_message msg a)).
  destruct (IH (handle_message msg a)) as (-> & -> & -> & ->); [lia|lia|].
  destruct msg; try discriminate Ha; try discriminate He; repeat split.
Qed.

Lemma process_queue_emit (a : App) (evs : list Event) :
  queue a = [] -> process_queue (emit a evs) = handle_all evs a.
Proof.
  intros Hq. unfold process_queue, emit. destruct a. cbn in *. subst.
  reflexivity.
Qed.

End Controls.

(** X13. Draining the queue in two polls is draining it in one: the events
    put on the queue after a poll are handled on top of the state the poll
    left, and a poll leaves the queue empty. *)
Theorem process_queue_twice (a : App) (evs : list Event) :
  queue (process_queue a) = []
  /\ process_queue (emit (process_queue a) evs) = process_queue (emit a evs).
Proof.
  assert (Hq : queue (process_queue a) = []).
  { unfold process_queue. rewrite (proj1 (handle_all_frame _ _)). reflexivity. }
  split; [exact Hq|].
  rewrite (process_queue_emit _ _ Hq).
  unfold process_queue at 2. unfold emit at 1. cbn [queue set_queue].
  rewrite handle_all_app. unfold process_queue. destruct a; reflexivity.
Qed.

Section AfterRun.

Lemma handle_all_ends_idle (evs : list Event) (e : Event) (a : App) :
  is_all_done e || is_error e = true -> idle (handle_all (evs ++ [e]) a).
Proof.
  intros He. rewrite handle_all_app.
  destruct e; try discriminate He; repeat split.
Qed.

Lemma on_start_controls (a0 a1 : App) :
  on_start_transcription a0 = (a1, true) -> running a1 /\ file_listbox a1 = [].
Proof.
  unfold on_start_transcription.
  destruct (is_transcribing a0); [discriminate|].
  destruct (audio_files a0); [discriminate|].
  intros H. injection H as <-. repeat split.
Qed.

End AfterRun.

(** X14. An [all_done] or an [error] event brings the UI back to the idle
    state whatever came before, and clears no counter. *)
Theorem run_ends_idle (evs : list Event) (e : Event) (a : App) :
  is_all_done e || is_error e = true ->
  idle (handle_all (evs ++ [e]) a)
  /\ files_done (handle_all (evs ++ [e]) a) = files_done a + count_ev is_file_done evs
  /\ total_files (handle_all (evs ++ [e]) a) = total_files a.
Proof.
  intros He. split; [exact (handle_all_ends_idle evs e a He)|].
  destruct (handle_all_counters (evs ++ [e]) a) as [-> ->].
  rewrite count_ev_app, count_ev_cons.
  destruct e; try discriminate He; cbn; split; lia.
Qed.

Lemma run_ends_idle_witness :
  idle (handle_all ([FileStart 1 1 "a"; FileDone 1 1 "a" "b" f_zero] ++ [AllDone f_zero])
          sample_started).
Proof.
  apply (run_ends_idle [FileStart 1 1 "a"; FileDone 1 1 "a" "b" f_zero] (AllDone f_zero)
           sample_started).
  reflexivity.
Defined.

(** X15. The UI once a run is over and the queue is drained.  When the
    worker has returned, by [all_done] or by a caught exception, the UI is
    idle; when the worker has ended on an exception that [except Exception]
    lets through, no event tells the UI, which stays in the running state with
    its controls disabled.  Either way the staged list and the list box are
    empty, so that Start starts nothing before files are selected again. *)
Theorem ui_after_run env (a0 a1 : App) (w : World) :
  on_start_transcription a0 = (a1, true) ->
  queue a0 = [] ->
  exists r st',
    worker_transcribe_all env (mkSt a1 w) = (r, st')
    /\ queue (process_queue (self st')) = []
    /\ audio_files (process_queue (self st')) = []
    /\ file_listbox (process_queue (self st')) = []
    /\ on_start_transcription (process_queue (self st'))
       = (process_queue (self st'), false)
    /\ match r with
       | Ok _ => idle (process_queue (self st'))
       | Raise _ => running (process_queue (self st'))
       end.
Proof.
  intros Hstart Hq0.
  destruct (on_start_snapshot a0 a1 Hstart) as (_ & _ & _ & _ & _ & Hstaged & _ & Hq).
  destruct (on_start_controls a0 a1 Hstart) as [Hrun Hbox].
  rewrite Hq0 in Hq.
  destruct (worker_transcribe_all_run env a1 w) as (r & evs & w' & Hbody & Hall).
  destruct (worker_body_run env a1 w) as (r' & evs' & w'' & Hrun' & _ & He & _ & Hr).
  rewrite Hbody in Hrun'. injection Hrun' as <- Hemit <-.
  apply app_inv_head in Hemit. subst evs'.
  eexists _, _. split; [exact Hall|]. cbn [self].
  rewrite (process_queue_emit _ _ Hq).
  destruct (handle_all_frame (evs ++ error_events r) a1) as (Hf1 & Hf2 & _ & _ & Hf5).
  rewrite Hf1, Hf2, Hf5, Hq, Hstaged, Hbox.
  split; [reflexivity|]. split; [reflexivity|]. split; [reflexivity|].
  split.
  { unfold on_start_transcription. rewrite Hf2, Hstaged.
    destruct (is_transcribing _); reflexivity. }
  destruct r as [[]|[msg|msg]]; cbn [uncaught error_events].
  - destruct Hr as (_ & _ & (pre & t & -> & _) & _).
    rewrite app_nil_r. apply handle_all_ends_idle. reflexivity.
  - apply handle_all_ends_idle. reflexivity.
  - destruct Hr as (Ha & _). rewrite app_nil_r. unfold running.
    destruct (handle_all_controls evs a1 Ha He) as (-> & -> & -> & ->).
    exact Hrun.
Qed.

Lemma ui_after_run_witness :
  idle (process_queue
          (self (snd (worker_transcribe_all sample_env
                        (mkSt sample_started sample_world)))))
  /\ running (process_queue
                (self (snd (worker_transcribe_all sample_exit_env
                              (mkSt sample_started sample_world))))).
Proof.
  split.
  - destruct (ui_after_run sample_env (sample_idle sample_files) sample_started
                sample_world) as (r & st' & Hall & _ & _ & _ & _ & H);
      [reflexivity|reflexivity|].
    assert (Hr : r = Ok tt)
      by (apply (f_equal fst) in Hall; vm_compute in Hall; congruence).
    rewrite Hall. cbn [snd]. rewrite Hr in H. exact H.
  - destruct (ui_after_run sample_exit_env (sample_idle sample_files) sample_started
                sample_world) as (r & st' & Hall & _ & _ & _ & _ & H);
      [reflexivity|reflexivity|].
    assert (Hr : r = Raise (BaseException "bye"))
      by (apply (f_equal fst) in Hall; vm_compute in Hall; congruence).
    rewrite Hall. cbn [snd]. rewrite Hr in H. exact H.
Defined.

(** ** The events of the worker *)

Section Emits.
Variable P : Event -> Prop.

Lemma emits_lift_exc {A} (r : exc A) : emits P (lift_exc r).
Proof. intros a w. exists r, [], w. rewrite emit_nil. split; [reflexivity|constructor]. Qed.

Lemma emits_ret {A} (x : A) : emits P (ret x).
Proof. exact (emits_lift_exc (Ok x)). Qed.

Lemma emits_raise {A} (e : exn) : emits P (@raise St A e).
Proof. exact (emits_lift_exc (Raise e)). Qed.

Lemma emits_on_world {A} (m : M World A) : emits P (on_world m).
Proof.
  intros a w. exists (fst (m w)), [], (snd (m w)). rewrite emit_nil.
  split; [apply on_world_run|constructor].
Qed.

Lemma emits_gets {A} (f : St -> A) : emits P (gets f).
Proof.
  intros a w. exists (Ok (f (mkSt a w))), [], w. rewrite emit_nil.
  split; [reflexivity|constructor].
Qed.

Lemma emits_queue_put (ev : Event) : P ev -> emits P (queue_put ev).
Proof. intros Hev a w. exists (Ok tt), [ev], w. split; [reflexivity|repeat constructor; exact Hev]. Qed.

Lemma emits_bind {A B} (m : M St A) (f : A -> M St B) :
  emits P m -> (forall x, emits P (f x)) -> emits P (bind m f).
Proof.
  intros Hm Hf a w. destruct (Hm a w) as (r1 & evs1 & w1 & H1 & HP1).
  unfold bind. rewrite H1. destruct r1 as [x|e].
  - destruct (Hf x (emit a evs1) w1) as (r2 & evs2 & w2 & H2 & HP2).
    exists r2, (evs1 ++ evs2), w2. rewrite H2, emit_emit.
    split; [reflexivity|]. apply Forall_app. split; assumption.
  - exists (Raise e), evs1, w1. split; [reflexivity|exact HP1].
Qed.

Lemma emits_try {A} (body : M St A) (handler : string -> M St A) :
  emits P body -> (forall msg, emits P (handler msg)) ->
  emits P (try_except body handler).
Proof.
  intros Hm Hf a w. destruct (Hm a w) as (r1 & evs1 & w1 & H1 & HP1).
  unfold try_except. rewrite H1. destruct r1 as [x|[msg|msg]].
  - exists (Ok x), evs1, w1. split; [reflexivity|exact HP1].
  - destruct (Hf msg (emit a evs1) w1) as (r2 & evs2 & w2 & H2 & HP2).
    exists r2, (evs1 ++ evs2), w2. rewrite H2, emit_emit.
    split; [reflexivity|]. apply Forall_app. split; assumption.
  - exists (Raise (BaseException msg)), evs1, w1. split; [reflexivity|exact HP1].
Qed.

End Emits.

Section EmitsWorker.

Lemma segment_event_percent_ok (d : float) (seg : Segment) (e : Event) :
  segment_event d seg = Ok (Some e) -> percent_ok e.
Proof.
  unfold segment_event. destruct (String.eqb (segment_text seg) ""); [discriminate|].
  destruct (percent_of d (seg_end seg)) as [p|ex] eqn:Ep; [|discriminate].
  intros H. injection H as <-. exact (percent_of_range _ _ _ Ep).
Qed.

Lemma emits_segments_loop (d : float) (segs : list Segment) (lines : list string) :
  emits percent_ok (segments_loop d segs lines).
Proof.
  revert lines. induction segs as [|seg rest IH]; intros lines; cbn [segments_loop].
  - apply emits_ret.
  - intros a w. unfold bind at 1, lift_exc.
    destruct (segment_event d seg) as [[e|]|ex] eqn:Ev.
    + unfold bind at 1. rewrite queue_put_emit.
      destruct (IH (lines ++ [segment_text seg]) (emit a [e]) w)
        as (r & evs & w' & Hrun & HP).
      exists r, (e :: evs), w'. rewrite Hrun, emit_emit. split; [reflexivity|].
      constructor; [exact (segment_event_percent_ok _ _ _ Ev)|exact HP].
    + exact (IH lines a w).
    + exists (Raise ex), [], w. rewrite emit_nil. split; [reflexivity|constructor].
Qed.

Lemma emits_write_lines env (out : Path) (lines : list string) :
  emits percent_ok (write_lines env out lines).
Proof.
  induction lines as [|line rest IH]; cbn [write_lines]; [apply emits_ret|].
  apply emits_bind; [apply emits_on_world|]. intros _. exact IH.
Qed.

Ltac emits_steps :=
  repeat first
    [ apply emits_bind; [|intros]
    | apply emits_on_world
    | apply emits_gets
    | apply emits_ret
    | apply emits_raise
    | apply emits_segments_loop
    | apply emits_write_lines
    | apply emits_queue_put; exact I ].

Lemma emits_transcribe_file env (idx : nat) (p : Path) :
  emits percent_ok (transcribe_file env idx p).
Proof.
  unfold transcribe_file. emits_steps.
  match goal with |- context [tr_fail ?tr] => destruct (tr_fail tr) end; emits_steps.
Qed.

Lemma emits_for_files env (files : list Path) (idx : nat) :
  emits percent_ok (for_files env idx files).
Proof.
  revert idx. induction files as [|f rest IH]; intros idx; cbn [for_files].
  - apply emits_ret.
  - apply emits_bind; [apply emits_transcribe_file|]. intros _. apply IH.
Qed.

Lemma emits_worker env : emits percent_ok (worker_transcribe_all env).
Proof.
  unfold worker_transcribe_all. apply emits_try; [|intros; emits_steps].
  unfold worker_body, worker_setup. emits_steps. apply emits_for_files.
Qed.

Lemma worker_file_done_le env (a : App) (w : World) (r : exc unit)
    (evs : list Event) (w' : World) :
  worker_transcribe_all env (mkSt a w) = (r, mkSt (emit a evs) w') ->
  count_ev is_file_done evs <= length (worker_files a).
Proof.
  intros Hall.
  destruct (worker_transcribe_all_run env a w) as (r0 & evs0 & w0 & Hbody & Hall0).
  destruct (worker_body_run env a w) as (r1 & evs1 & w1 & Hrun & _ & _ & Hd & Hr).
  rewrite Hbody in Hrun. injection Hrun as <- Hemit <-.
  apply app_inv_head in Hemit. subst evs1.
  rewrite Hall in Hall0. injection Hall0 as _ Hemit _.
  apply app_inv_head in Hemit. subst evs.
  destruct (error_events_count r0) as (_ & _ & Hed & _).
  rewrite count_ev_app, Hed, Hd, Nat.add_0_r.
  destruct r0 as [[]|e].
  - destruct Hr as (_ & -> & _). rewrite length_seq. lia.
  - destruct Hr as (_ & k & Hk & _ & ->). rewrite length_seq. lia.
Qed.

Lemma handle_message_bars (msg : Event) (a : App) :
  percent_ok msg ->
  (0 <= file_progress_bar a <= 100)%Z -> overall_progress_bar a <= files_done a ->
  (0 <= file_progress_bar (handle_message msg a) <= 100)%Z
  /\ overall_progress_bar (handle_message msg a) <= files_done (handle_message msg a)
  /\ overall_progress_max (handle_message msg a) = overall_progress_max a.
Proof. destruct msg; cbn; intros; repeat split; lia. Qed.

Lemma handle_all_bars (msgs : list Event) (a : App) :
  Forall percent_ok msgs ->
  (0 <= file_progress_bar a <= 100)%Z -> overall_progress_bar a <= files_done a ->
  (0 <= file_progress_bar (handle_all msgs a) <= 100)%Z
  /\ overall_progress_bar (handle_all msgs a) <= files_done (handle_all msgs a)
  /\ overall_progress_max (handle_all msgs a) = overall_progress_max a.
Proof.
  intros HP. revert a. induction HP as [|msg msgs Hmsg _ IH]; intros a Hf Ho.
  - unfold handle_all. cbn [fold_left]. repeat split; lia.
  - unfold handle_all. cbn [fold_left]. fold (handle_all msgs (handle_message msg a)).
    destruct (handle_message_bars msg a Hmsg Hf Ho) as (Hf1 & Ho1 & Hm1).
    destruct (IH _ Hf1 Ho1) as (Hf2 & Ho2 & Hm2).
    repeat split; try lia; congruence.
Qed.

End EmitsWorker.

(** X16. Throughout a run the two progress bars stay within their range:
    after every prefix of the worker's events the bar of the file is within 0
    and 100, and the overall bar is at most [files_done], which is at most the
    maximum of the bar. *)
Theorem progress_within_bounds env (a0 a1 : App) (w : World) :
  on_start_transcription a0 = (a1, true) ->
  exists r evs w',
    worker_transcribe_all env (mkSt a1 w) = (r, mkSt (emit a1 evs) w')
    /\ forall n,
         (0 <= file_progress_bar (handle_all (firstn n evs) a1) <= 100)%Z
         /\ overall_progress_bar (handle_all (firstn n evs) a1)
            <= files_done (handle_all (firstn n evs) a1)
         /\ files_done (handle_all (firstn n evs) a1)
            <= overall_progress_max (handle_all (firstn n evs) a1).
Proof.
  intros Hstart.
  destruct (emits_worker env a1 w) as (r & evs & w' & Hall & HP).
  exists r, evs, w'. split; [exact Hall|]. intros n.
  pose proof (worker_file_done_le env a1 w r evs w' Hall) as Hle.
  destruct (on_start_snapshot a0 a1 Hstart) as (_ & _ & Htotal & Hdone & _).
  assert (Hinit : file_progress_bar a1 = 0%Z /\ overall_progress_bar a1 = 0
                  /\ overall_progress_max a1 = Nat.max (length (worker_files a1)) 1).
  { unfold on_start_transcription in Hstart.
    destruct (is_transcribing a0); [discriminate|].
    destruct (audio_files a0); [discriminate|].
    injection Hstart as <-. repeat split. }
  destruct Hinit as (Hf0 & Ho0 & Hm0).
  destruct (handle_all_bars (firstn n evs) a1) as (Hf & Ho & Hm);
    [apply Forall_take, HP|lia|lia|].
  split; [exact Hf|]. split; [exact Ho|].
  rewrite Hm, Hm0.
  destruct (handle_all_counters (firstn n evs) a1) as [-> _].
  pose proof (count_ev_firstn is_file_done n evs). lia.
Qed.

Lemma progress_within_bounds_witness :
  exists r evs w',
    worker_transcribe_all sample_env (mkSt sample_quiet_started sample_world)
    = (r, mkSt (emit sample_quiet_started evs) w')
    /\ (0 <= file_progress_bar (handle_all evs sample_quiet_started) <= 100)%Z.
Proof.
  destruct (progress_within_bounds sample_env (sample_idle sample_quiet_files)
              sample_quiet_started sample_world) as (r & evs & w' & Hall & H).
  - reflexivity.
  - exists r, evs, w'. split; [exact Hall|].
    destruct (H (length evs)) as [Hf _]. rewrite firstn_all in Hf. exact Hf.
Defined.

(** ** What the worker leaves in place *)

Section Keeps.

Lemma tree_kept_refl (K : list string -> Prop) (fs : tree) : tree_kept K fs fs.
Proof. split; auto. Qed.

Lemma tree_kept_trans (K : list string -> Prop) (fs1 fs2 fs3 : tree) :
  tree_kept K fs1 fs2 -> tree_kept K fs2 fs3 -> tree_kept K fs1 fs3.
Proof. intros [H1 H1'] [H2 H2']. split; eauto. Qed.

Lemma tree_kept_insert (K : list string -> Prop) (fs : tree) (k : list string) (x : node) :
  K k -> tree_kept K fs (<[k := x]> fs).
Proof.
  intros Hk. split.
  - intros k' y Hk' Hy. rewrite lookup_insert_ne; [exact Hy|]. congruence.
  - intros k' Hy. destruct (decide (k = k')) as [<-|Hne].
    + rewrite lookup_insert_eq. eauto.
    + rewrite lookup_insert_ne by exact Hne. exact Hy.
Qed.

Lemma tree_kept_mkdir (K : list string -> Prop) (name : string) (fs : tree)
    (done todo : list string) (fs' : tree) :
  mkdir_parents name fs done todo = Ok fs' -> tree_kept K fs fs'.
Proof.
  intros H. destruct (mkdir_parents_keeps _ _ _ _ _ H) as [Hkeep _].
  split; [intros k x _; apply Hkeep|]. intros k [x Hx]. exists x. apply Hkeep, Hx.
Qed.

Variable env : Env.
Variable d : Path.

Lemma world_keeps_io_fault (K : list string -> Prop) : world_keeps K (io_fault env).
Proof.
  intros w. rewrite io_fault_run. cbn [snd w_config w_fs set_tick].
  split; [reflexivity|apply tree_kept_refl].
Qed.

Lemma world_keeps_tick {A} (K : list string -> Prop) (f : nat -> exc A) :
  world_keeps K (t <- tick ;; lift_exc (f t)).
Proof. intros w. split; [reflexivity|apply tree_kept_refl]. Qed.

Lemma world_keeps_mkdir (K : list string -> Prop) (p : Path) :
  world_keeps K (path_mkdir env p).
Proof.
  intros w. rewrite path_mkdir_run.
  destruct (env_fault env (w_tick w)); [split; [reflexivity|apply tree_kept_refl]|].
  destruct (mkdir_parents _ _ _ _) as [fs'|e] eqn:Emk;
    cbn [snd w_config w_fs set_fs set_tick].
  - split; [reflexivity|exact (tree_kept_mkdir K _ _ _ _ _ Emk)].
  - split; [reflexivity|apply tree_kept_refl].
Qed.

Lemma world_keeps_open_w (K : list string -> Prop) (p : Path) (enc : string) :
  K (locate (env_cwd env) p) -> world_keeps K (path_open_w env p enc).
Proof.
  intros Hk w. rewrite path_open_w_run.
  destruct (env_fault env (w_tick w)); [split; [reflexivity|apply tree_kept_refl]|].
  destruct (open_w _ _ _ _) as [fs'|e] eqn:Eop;
    cbn [snd w_config w_fs set_fs set_tick].
  - apply open_w_inv in Eop. subst fs'.
    split; [reflexivity|apply tree_kept_insert, Hk].
  - split; [reflexivity|apply tree_kept_refl].
Qed.

Lemma world_keeps_file_write (K : list string -> Prop) (p : Path) (text : string) :
  K (locate (env_cwd env) p) -> world_keeps K (file_write env p text).
Proof.
  intros Hk w. rewrite file_write_run.
  destruct (env_fault env (w_tick w)); cbn [snd w_config w_fs set_fs set_tick];
    [split; [reflexivity|apply tree_kept_refl]|].
  split; [reflexivity|]. unfold append_text.
  destruct (w_fs w !! locate (env_cwd env) p) as [[|enc c]|];
    try apply tree_kept_refl.
  apply tree_kept_insert, Hk.
Qed.

Lemma keeps_on_world {A} (K : list string -> Prop) (m : M World A) :
  world_keeps K m -> keeps d K (on_world m).
Proof.
  intros Hm a w Hd. rewrite on_world_run. cbn [snd self world].
  destruct (Hm w) as [Hc Ht]. auto.
Qed.

Lemma keeps_lift_exc {A} (K : list string -> Prop) (r : exc A) : keeps d K (lift_exc r).
Proof. intros a w Hd. cbn. split; [exact Hd|]. split; [reflexivity|apply tree_kept_refl]. Qed.

Lemma keeps_gets {A} (K : list string -> Prop) (f : St -> A) : keeps d K (gets f).
Proof. intros a w Hd. cbn. split; [exact Hd|]. split; [reflexivity|apply tree_kept_refl]. Qed.

Lemma keeps_queue_put (K : list string -> Prop) (ev : Event) : keeps d K (queue_put ev).
Proof. intros a w Hd. cbn. split; [exact Hd|]. split; [reflexivity|apply tree_kept_refl]. Qed.

Lemma keeps_bind {A B} (K : list string -> Prop) (m : M St A) (f : A -> M St B) :
  keeps d K m -> (forall x, keeps d K (f x)) -> keeps d K (bind m f).
Proof.
  intros Hm Hf a w Hd. specialize (Hm a w Hd). unfold bind.
  destruct (m (mkSt a w)) as [[x|e] [a1 w1]]; cbn [snd self world] in *.
  - destruct Hm as (Hd1 & Hc1 & Ht1).
    destruct (Hf x a1 w1 Hd1) as (Hd2 & Hc2 & Ht2).
    split; [exact Hd2|]. split; [congruence|].
    exact (tree_kept_trans _ _ _ _ Ht1 Ht2).
  - exact Hm.
Qed.

(** The output directory that is read is [d]. *)
Lemma keeps_bind_output_dir {B} (K : list string -> Prop) (f : Path -> M St B) :
  keeps d K (f d) -> keeps d K (bind (gets (fun st => output_dir (self st))) f).
Proof.
  intros Hf a w Hd. unfold bind, gets. cbn [self]. rewrite Hd. exact (Hf a w Hd).
Qed.

(** The time stamp that is read is one of [strftime]. *)
Lemma keeps_bind_now {B} (K : list string -> Prop) (f : string -> M St B) :
  (forall secs, keeps d K (f (strftime_HMS secs))) ->
  keeps d K (bind (on_world (now_HMS env)) f).
Proof.
  intros Hf a w Hd. unfold bind at 1. rewrite on_world_run.
  unfold now_HMS. cbn [bind tick fst snd ret].
  destruct (Hf (env_now env (w_tick w)) a (set_tick (S (w_tick w)) w) Hd)
    as (Hd2 & Hc2 & Ht2).
  auto.
Qed.

Lemma keeps_try {A} (K : list string -> Prop) (body : M St A) (handler : string -> M St A) :
  keeps d K body -> (forall msg, keeps d K (handler msg)) ->
  keeps d K (try_except body handler).
Proof.
  intros Hm Hf a w Hd. specialize (Hm a w Hd). unfold try_except.
  destruct (body (mkSt a w)) as [[x|[msg|msg]] [a1 w1]]; cbn [snd self world] in *;
    try exact Hm.
  destruct Hm as (Hd1 & Hc1 & Ht1).
  destruct (Hf msg a1 w1 Hd1) as (Hd2 & Hc2 & Ht2).
  split; [exact Hd2|]. split; [congruence|].
  exact (tree_kept_trans _ _ _ _ Ht1 Ht2).
Qed.

Lemma keeps_weaken {A} (K K' : list string -> Prop) (m : M St A) :
  (forall k, K k -> K' k) -> keeps d K m -> keeps d K' m.
Proof.
  intros HK Hm a w Hd. destruct (Hm a w Hd) as (Hd1 & Hc1 & Ht1 & Ht1').
  split; [exact Hd1|]. split; [exact Hc1|]. split; [|exact Ht1'].
  intros k x Hk. apply Ht1. intros Hk'. apply Hk, HK, Hk'.
Qed.

Lemma keeps_segments_loop (K : list string -> Prop) (dur : float)
    (segs : list Segment) (lines : list string) :
  keeps d K (segments_loop dur segs lines).
Proof.
  revert lines. induction segs as [|seg rest IH]; intros lines; cbn [segments_loop].
  - apply keeps_lift_exc.
  - apply keeps_bind; [apply keeps_lift_exc|]. intros [e|]; [|apply IH].
    apply keeps_bind; [apply keeps_queue_put|]. intros _. apply IH.
Qed.

Lemma keeps_write_lines (K : list string -> Prop) (out : Path) (lines : list string) :
  K (locate (env_cwd env) out) -> keeps d K (write_lines env out lines).
Proof.
  intros Hk. induction lines as [|line rest IH]; cbn [write_lines].
  - apply keeps_lift_exc.
  - apply keeps_bind; [|intros _; exact IH].
    apply keeps_on_world, world_keeps_file_write, Hk.
Qed.

Lemma keeps_transcribe_file (idx : nat) (p : Path) :
  keeps d (transcript_keys (locate (env_cwd env) d) idx) (transcribe_file env idx p).
Proof.
  set (K := transcript_keys (locate (env_cwd env) d) idx).
  assert (Hk : forall secs,
            K (locate (env_cwd env) (path_div d (out_name idx (strftime_HMS secs))))).
  { intros secs. rewrite locate_out_path. exists idx, secs. auto. }
  unfold transcribe_file.
  apply keeps_bind; [apply keeps_on_world, world_keeps_tick|]. intros file_start.
  apply keeps_bind; [apply keeps_gets|]. intros total.
  apply keeps_bind; [apply keeps_queue_put|]. intros _.
  apply keeps_bind; [apply keeps_on_world, world_keeps_tick|]. intros tr.
  apply keeps_bind; [apply keeps_segments_loop|]. intros lines.
  apply keeps_bind; [destruct (tr_fail tr); apply keeps_lift_exc|]. intros _.
  apply keeps_bind_now. intros secs.
  apply keeps_bind_output_dir. apply keeps_bind_output_dir.
  apply keeps_bind; [apply keeps_on_world, world_keeps_mkdir|]. intros _.
  apply keeps_bind; [apply keeps_on_world, world_keeps_open_w, Hk|]. intros _.
  apply keeps_bind; [apply keeps_write_lines, Hk|]. intros _.
  apply keeps_bind; [apply keeps_on_world, world_keeps_io_fault|]. intros _.
  apply keeps_bind; [apply keeps_on_world, world_keeps_tick|]. intros t.
  apply keeps_bind; [apply keeps_gets|]. intros total'.
  apply keeps_queue_put.
Qed.

Lemma keeps_for_files (files : list Path) (idx : nat) :
  keeps d (transcript_keys (locate (env_cwd env) d) idx) (for_files env idx files).
Proof.
  revert idx. induction files as [|f rest IH]; intros idx; cbn [for_files].
  - apply keeps_lift_exc.
  - apply keeps_bind; [apply keeps_transcribe_file|]. intros _.
    apply (keeps_weaken (transcript_keys (locate (env_cwd env) d) (S idx)));
      [|apply IH].
    intros k (i & secs & Hi & ->). exists i, secs. split; [lia|reflexivity].
Qed.

Lemma keeps_worker :
  keeps d (transcript_keys (locate (env_cwd env) d) 1) (worker_transcribe_all env).
Proof.
  unfold worker_transcribe_all. apply keeps_try; [|intros; apply keeps_queue_put].
  unfold worker_body, worker_setup.
  apply keeps_bind.
  { apply keeps_bind; [apply keeps_on_world, world_keeps_tick|]. intros t.
    apply keeps_bind; [apply keeps_queue_put|]. intros _.
    apply keeps_bind; [apply keeps_on_world, world_keeps_tick|]. intros _.
    apply keeps_bind; [apply keeps_queue_put|]. intros _. apply keeps_lift_exc. }
  intros t0. apply keeps_bind; [apply keeps_gets|]. intros files.
  apply keeps_bind; [apply keeps_for_files|]. intros _.
  apply keeps_bind; [apply keeps_on_world, world_keeps_tick|]. intros t.
  apply keeps_queue_put.
Qed.

End Keeps.

Section Remain.
Variable env : Env.

Lemma finished_of_file (idx total : nat) (name out : string) (el : float)
    (segs rest : list Event) :
  Forall (fun e => is_segment_ev e = true) segs ->
  finished ((FileStart idx total name :: segs ++ [FileDone idx total name out el]) ++ rest)
  = idx :: finished rest.
Proof.
  intros Hsegs. destruct (segments_only segs Hsegs) as (_ & Hs2 & _).
  rewrite finished_app. cbn [finished]. rewrite finished_app, Hs2. reflexivity.
Qed.

Lemma for_files_done (files : list Path) (idx : nat) (a : App) (w : World) :
  exists r evs w',
    for_files env idx files (mkSt a w) = (r, mkSt (emit a evs) w')
    /\ forall i, In i (finished evs) ->
         idx <= i
         /\ exists p secs t tr,
              nth_error files (i - idx) = Some p
              /\ env_transcribe env t (path_str p) = Ok tr
              /\ w_fs w' !! (locate (env_cwd env) (output_dir a)
                             ++ [out_name i (strftime_HMS secs)])
                 = Some (File "utf-8" (transcript (recognized_lines (tr_segments tr)))).
Proof.
  revert idx a w. induction files as [|f rest IH]; intros idx a w.
  - exists (Ok tt), [], w. rewrite emit_nil. split; [reflexivity|]. intros i [].
  - cbn [for_files]. unfold bind at 1.
    destruct (transcribe_file_run env idx f a w) as (r1 & evs1 & w1 & Hrun1 & _ & Hr1).
    rewrite Hrun1. clear Hrun1.
    destruct r1 as [[]|e].
    + destruct Hr1 as (tr & secs & t & segs & el & Htr & _ & -> & Hsegs & _ & Hfile & _).
      match goal with |- context [for_files env (S idx) rest (mkSt ?a1 w1)] =>
        set (a1' := a1);
        destruct (IH (S idx) a1' w1) as (r2 & evs2 & w2 & Hrun2 & H2);
        pose proof (keeps_for_files env (output_dir a) rest (S idx) a1' w1 eq_refl)
          as (_ & _ & Hkept & _);
        rewrite Hrun2 in Hkept |- * end.
      cbn [snd world] in Hkept.
      subst a1'. rewrite emit_emit. eexists r2, _, w2. split; [reflexivity|].
      intros i Hi. rewrite finished_of_file in Hi by exact Hsegs.
      destruct Hi as [<-|Hi].
      * split; [lia|]. exists f, secs, t, tr. rewrite Nat.sub_diag.
        split; [reflexivity|]. split; [exact Htr|].
        apply Hkept; [|exact Hfile].
        intros (i' & secs' & Hi' & Heq). apply app_inv_head in Heq.
        assert (Hn : out_name idx (strftime_HMS secs) = out_name i' (strftime_HMS secs'))
          by congruence.
        apply out_name_inj in Hn. lia.
      * destruct (H2 i Hi) as (Hle & p & secs' & t' & tr' & Hnth & Htr' & Hfile').
        split; [lia|]. exists p, secs', t', tr'.
        replace (i - idx) with (S (i - S idx)) by lia.
        split; [exact Hnth|]. split; [exact Htr'|exact Hfile'].
    + exists (Raise e), (FileStart idx (total_files a) (path_name f) :: evs1), w1.
      split; [reflexivity|]. intros i Hi.
      destruct (segments_only evs1 Hr1) as (_ & Hs2 & _).
      cbn [finished] in Hi. rewrite Hs2 in Hi. destruct Hi.
Qed.

End Remain.

(** X17. Whatever the outcome of a run, the worker leaves the configuration
    file alone, removes no entry of the tree, and changes no entry but the
    transcripts [Call<i>_<HHMMSS>.txt] in the output directory. *)
Theorem worker_leaves_the_rest env (a : App) (w : World) :
  w_config (world (snd (worker_transcribe_all env (mkSt a w)))) = w_config w
  /\ (forall k x,
        (forall i secs,
           k <> locate (env_cwd env) (output_dir a) ++ [out_name i (strftime_HMS secs)]) ->
        w_fs w !! k = Some x ->
        w_fs (world (snd (worker_transcribe_all env (mkSt a w)))) !! k = Some x)
  /\ (forall k,
        is_Some (w_fs w !! k) ->
        is_Some (w_fs (world (snd (worker_transcribe_all env (mkSt a w)))) !! k)).
Proof.
  destruct (keeps_worker env (output_dir a) a w eq_refl) as (_ & Hc & Hkept & Hall).
  split; [exact Hc|]. split; [|exact Hall].
  intros k x Hk. apply Hkept. intros (i & secs & _ & ->). exact (Hk i secs eq_refl).
Qed.

(** X18. The transcripts of the files that are done stay on disk, also when
    a later file makes the run fail: at the end of the run, whatever its
    outcome, every [file_done] event has its transcript in the output
    directory, with the lines of that file. *)
Theorem finished_transcripts_remain env (a : App) (w : World) :
  exists r evs w',
    worker_transcribe_all env (mkSt a w) = (r, mkSt (emit a evs) w')
    /\ forall i, In i (finished evs) ->
         exists p secs t tr,
           nth_error (worker_files a) (i - 1) = Some p
           /\ env_transcribe env t (path_str p) = Ok tr
           /\ w_fs w' !! (locate (env_cwd env) (output_dir a)
                          ++ [out_name i (strftime_HMS secs)])
              = Some (File "utf-8" (transcript (recognized_lines (tr_segments tr)))).
Proof.
  assert (Hbody : exists r evs w',
            worker_body env (mkSt a w) = (r, mkSt (emit a evs) w')
            /\ forall i, In i (finished evs) ->
                 exists p secs t tr,
                   nth_error (worker_files a) (i - 1) = Some p
                   /\ env_transcribe env t (path_str p) = Ok tr
                   /\ w_fs w' !! (locate (env_cwd env) (output_dir a)
                                  ++ [out_name i (strftime_HMS secs)])
                      = Some (File "utf-8"
                                (transcript (recognized_lines (tr_segments tr))))).
  { unfold worker_body. unfold bind at 1.
    destruct (worker_setup_run env a w)
      as (r0 & evs0 & w0 & Hrun0 & _ & _ & _ & Hfi0 & _).
    rewrite Hrun0. clear Hrun0.
    destruct r0 as [start_time|e].
    2: { exists (Raise e), evs0, w0. split; [reflexivity|].
         intros i Hi. rewrite Hfi0 in Hi. destruct Hi. }
    unfold bind at 1. cbn [gets self worker_files emit set_queue].
    unfold bind at 1.
    match goal with |- context [for_files env 1 ?fl (mkSt ?a1 w0)] =>
      destruct (for_files_done env fl 1 a1 w0) as (r1 & evs1 & w1 & Hrun1 & H1);
      rewrite Hrun1; clear Hrun1 end.
    rewrite emit_emit. cbn [output_dir emit set_queue] in H1.
    destruct r1 as [[]|e].
    - unfold bind at 1. rewrite on_world_run. cbn [fst snd time_time bind tick ret].
      rewrite queue_put_emit, emit_emit.
      eexists (Ok tt), _, _. split; [reflexivity|].
      intros i Hi. rewrite !finished_app, Hfi0 in Hi. cbn in Hi.
      rewrite app_nil_r in Hi. destruct (H1 i Hi) as (_ & H). exact H.
    - exists (Raise e), (evs0 ++ evs1), w1. split; [reflexivity|].
      intros i Hi. rewrite finished_app, Hfi0 in Hi.
      destruct (H1 i Hi) as (_ & H). exact H. }
  destruct Hbody as (r & evs & w' & Hbody & H).
  exists (uncaught r), (evs ++ error_events r), w'. split.
  - unfold worker_transcribe_all, try_except. rewrite Hbody.
    destruct r as [[]|[msg|msg]]; cbn [error_events uncaught].
    + rewrite app_nil_r. reflexivity.
    + rewrite queue_put_emit, emit_emit. reflexivity.
    + rewrite app_nil_r. reflexivity.
  - intros i Hi. rewrite finished_app in Hi.
    destruct (error_events_count r) as (Hef & _). rewrite Hef, app_nil_r in Hi.
    exact (H i Hi).
Qed.

Lemma finished_transcripts_remain_witness :
  exists r evs w',
    worker_transcribe_all sample_env (mkSt sample_started sample_world)
    = (r, mkSt (emit sample_started evs) w')
    /\ finished evs = [1]
    /\ exists secs,
         w_fs w' !! (["out"] ++ [out_name 1 (strftime_HMS secs)])
         = Some (File "utf-8" ("hello" +:+ blank_line +:+ "world" +:+ blank_line)).
Proof.
  destruct (finished_transcripts_remain sample_env sample_started sample_world)
    as (r & evs & w' & Hall & H).
  assert (Hfin : finished evs = [1]).
  { apply (f_equal (fun x => finished (queue (self (snd x))))) in Hall.
    vm_compute in Hall. cbn [snd self queue emit set_queue] in Hall.
    symmetry. exact Hall. }
  exists r, evs, w'. split; [exact Hall|]. split; [exact Hfin|].
  destruct (H 1) as (p & secs & t & tr & Hp & Htr & Hfile).
  - rewrite Hfin. left. reflexivity.
  - exists secs. injection Hp as <-. vm_compute in Htr. injection Htr as <-.
    exact Hfile.
Defined.


